(** * Rendezvous skeleton: a shallow embedding of [rendezvous.go]

    The Go package keeps a registry of node names, groups it into clusters
    and answers [FindNode key] by walking a virtual tree of hash decisions
    down to one cluster and running highest-random-weight selection inside
    it.  This file embeds the package function by function and settles the
    properties stated about it.

    Conventions of the embedding.
    - A Go [string] is a byte sequence: Rocq's [string] (a list of 8-bit
      [ascii]); [range] over a string decodes UTF-8 ([runes]).  [int] is
      64 bits wide and read as [Z]; lengths and indices stay within [int],
      and the one sum that can leave it, the index read from a branch,
      wraps ([wrap]).
    - A run-time panic (slice index out of range) is the [Panics] outcome.
    - [int(x)] of an infinite or NaN [float64] is implementation-dependent
      in Go; the three possible values are parameters ([FloatToInt]).
    - [float64] is exact on integers below 2^53 in magnitude, and
      [math.Pow] of two such integers with such a result is exact.
      [math.Log] is accurate to within one unit in the last place, so for
      a number of clusters below 2^31 the quotient of two logarithms lies
      on the same side of every integer as the real quotient, unless the
      real quotient is an integer: for an exact power [f ^ k], [k >= 2],
      the rounded quotient may come out above [k].  What rounding decides
      is a parameter ([FloatMath]), as is every result beyond these
      bounds.  The theorems hold for every value of the parameters. *)

From Stdlib Require Import ZArith String Ascii List Lia DecimalString.
From stdpp Require Import base tactics option list gmap sets strings.

Local Open Scope string_scope.
Local Open Scope list_scope.
Local Open Scope Z_scope.

(** ** Outcomes of Go calls *)

Inductive panic : Type :=
| IndexOutOfRange (i : Z) (len : nat).

Inductive outcome (A : Type) : Type :=
| Returns (a : A)
| Panics (p : panic).

Arguments Returns {A} a.
Arguments Panics {A} p.

Definition obind {A B : Type} (m : outcome A) (k : A -> outcome B) : outcome B :=
  match m with
  | Returns a => k a
  | Panics p => Panics p
  end.

Notation "x <<- m ;; k" := (obind m (fun x => k))
  (at level 100, m at next level, right associativity, only parsing).

(** [l[i]] with Go's bounds check. *)
Definition index {A : Type} (l : list A) (i : Z) : outcome A :=
  if i <? 0 then Panics (IndexOutOfRange i (length l))
  else match l !! Z.to_nat i with
       | Some x => Returns x
       | None => Panics (IndexOutOfRange i (length l))
       end.

(** ** Implementation-dependent conversions *)

(** The value of [int(f)] when [f] is NaN, +Inf or -Inf. *)
Class FloatToInt : Type := {
  int_of_NaN : Z;
  int_of_posInf : Z;
  int_of_negInf : Z
}.

(** On amd64 the conversion instruction yields the "integer indefinite"
    value for all three. *)
Definition amd64 : FloatToInt :=
  {| int_of_NaN := - 2 ^ 63; int_of_posInf := - 2 ^ 63; int_of_negInf := - 2 ^ 63 |}.

(** What the rounding of [float64] decides in [math.Log] and [math.Pow].
    - [quotient_above f k], for a fan-out [f >= 2] and an exponent [k >= 2]:
      whether the quotient [math.Log(f ^ k) / math.Log(f)] of the two
      rounded logarithms is above [k], so that [math.Ceil] makes it
      [k + 1].
    - [depth_of_large c f]: the value of
      [int(math.Ceil(math.Log(c) / math.Log(f)))] for [c >= 2 ^ 31].
    - [int_of_Pow f k]: the value of [int(math.Pow(f, k))] when [f ^ k] is
      2^53 or more in magnitude, where the power is rounded or outside
      [int]. *)
Class FloatMath : Type := {
  quotient_above : Z -> Z -> bool;
  depth_of_large : Z -> Z -> Z;
  int_of_Pow : Z -> Z -> Z
}.

(** [int] arithmetic wraps around at 64 bits. *)
Definition wrap (z : Z) : Z := (z + 2 ^ 63) mod 2 ^ 64 - 2 ^ 63.

(** ** strconv *)

(** [strconv.Itoa]. *)
Definition Itoa (z : Z) : string := NilZero.string_of_int (Z.to_int z).

Definition digitOf (c : ascii) : option Z :=
  let n := Z.of_N (N_of_ascii c) in
  if (48 <=? n) && (n <=? 57) then Some (n - 48) else None.

Fixpoint digitsVal (acc : Z) (s : string) : option Z :=
  match s with
  | EmptyString => Some acc
  | String c r =>
      match digitOf c with
      | Some d => digitsVal (10 * acc + d) r
      | None => None
      end
  end.

(** [strconv.Atoi]; [None] is the syntax error.  (Range errors do not arise
    for the one-character strings the package parses.) *)
Definition Atoi (s : string) : option Z :=
  match s with
  | EmptyString => None
  | String c r =>
      if Ascii.eqb c "+" then
        match r with EmptyString => None | _ => digitsVal 0 r end
      else if Ascii.eqb c "-" then
        match r with EmptyString => None | _ => Z.opp <$> digitsVal 0 r end
      else digitsVal 0 s
  end.

(** ** Runes

    [for _, v := range s] decodes [s] as UTF-8: a well-formed sequence of
    one to four bytes is one rune; a byte that starts no well-formed
    sequence is the rune U+FFFD and takes one byte. *)

Definition byteOf (c : ascii) : Z := Z.of_N (N_of_ascii c).

Definition between (lo hi : Z) (c : ascii) : bool :=
  (lo <=? byteOf c) && (byteOf c <=? hi).

(** A continuation byte, 80 to BF. *)
Definition continuation (c : ascii) : bool := between 128 191 c.

(** The first two bytes of a well-formed sequence of three bytes: E0 with
    A0..BF, E1..EC and EE..EF with 80..BF, ED with 80..9F. *)
Definition three (b0 b1 : ascii) : bool :=
  (between 224 224 b0 && between 160 191 b1)
  || (between 225 236 b0 && continuation b1)
  || (between 237 237 b0 && between 128 159 b1)
  || (between 238 239 b0 && continuation b1).

(** The first two bytes of a well-formed sequence of four bytes: F0 with
    90..BF, F1..F3 with 80..BF, F4 with 80..8F. *)
Definition four (b0 b1 : ascii) : bool :=
  (between 240 240 b0 && between 144 191 b1)
  || (between 241 243 b0 && continuation b1)
  || (between 244 244 b0 && between 128 143 b1).

(** The number of bytes the first rune of [bs] takes. *)
Definition runeLen (bs : list ascii) : nat :=
  match bs with
  | b0 :: b1 :: rest =>
      if between 194 223 b0 && continuation b1 then 2%nat
      else
        match rest with
        | b2 :: rest' =>
            if three b0 b1 && continuation b2 then 3%nat
            else
              match rest' with
              | b3 :: _ =>
                  if four b0 b1 && continuation b2 && continuation b3
                  then 4%nat else 1%nat
              | [] => 1%nat
              end
        | [] => 1%nat
        end
  | _ => 1%nat
  end.

(** [string(v)] for the rune U+FFFD: the bytes EF BF BD. *)
Definition replacement : string :=
  String "239" (String "191" (String "189" EmptyString)).

(** The runes of a byte sequence, each as the string [string(v)]. *)
Fixpoint runes (fuel : nat) (bs : list ascii) : list string :=
  match fuel, bs with
  | S fuel', b0 :: _ =>
      let n := runeLen bs in
      (if (n =? 1)%nat && (128 <=? byteOf b0) then replacement
       else string_of_list_ascii (take n bs))
      :: runes fuel' (drop n bs)
  | _, _ => []
  end.

(** ** The hash primitive *)

(** [hash.Hash64]: a resettable streaming hash.  [Reset] is the state after
    a reset, [WriteByte] absorbs one byte, so that [Write] absorbs a slice
    byte after byte. *)
Record Hash64 : Type := {
  hstate : Type;
  Reset : hstate;
  WriteByte : hstate -> ascii -> hstate;
  Sum64 : hstate -> Z
}.

Definition Write (h : Hash64) (st : hstate h) (p : string) : hstate h :=
  fold_left (WriteByte h) (list_ascii_of_string p) st.

(** [fnv.New64()] of Go's standard library: 64-bit FNV-1 (multiply, then
    xor the byte). *)
Definition offset64 : Z := 14695981039346656037.
Definition prime64 : Z := 1099511628211.

Definition fnv64 : Hash64 :=
  {| hstate := Z;
     Reset := offset64;
     WriteByte := fun st c =>
       Z.lxor ((st * prime64) mod 2 ^ 64) (Z.of_N (N_of_ascii c));
     Sum64 := fun st => st |}.

(** ** Options *)

Record Options : Type := {
  fanOut : Z;
  hash64 : Hash64;
  clusterSize : Z;
  minClusterSize : Z
}.

Definition GetDefaultOptions : Options :=
  {| fanOut := 3; hash64 := fnv64; clusterSize := 2; minClusterSize := 2 |}.

(** Go's [error]: [None] is [nil], [Some msg] an error with its message. *)
Definition error : Type := option string.

(** An [Option] is [nil] ([None]) or a function on a pointer to [Options]
    that returns an error: it maps the options it finds to the options it
    leaves and the error it returns. *)
Definition Option : Type := option (Options -> Options * error).

Definition FanOut (n : Z) : Option := Some (fun o =>
  ({| fanOut := n; hash64 := hash64 o;
      clusterSize := clusterSize o; minClusterSize := minClusterSize o |}, None)).

Definition HashAlgorithm (h : Hash64) : Option := Some (fun o =>
  ({| fanOut := fanOut o; hash64 := h;
      clusterSize := clusterSize o; minClusterSize := minClusterSize o |}, None)).

Definition ClusterSize (size : Z) : Option := Some (fun o =>
  ({| fanOut := fanOut o; hash64 := hash64 o;
      clusterSize := size; minClusterSize := minClusterSize o |}, None)).

Definition MinClusterSize (size : Z) : Option := Some (fun o =>
  ({| fanOut := fanOut o; hash64 := hash64 o;
      clusterSize := clusterSize o; minClusterSize := size |}, None)).

(** ** The skeleton *)

Record SkeletonRendezvous : Type := {
  options : Options;
  Clusters : list (list string);
  Nodes : list string;
  VirtualNodes : Z
}.

(** Lines 89-95: the options are applied in order, a [nil] option is
    skipped, and the first error ends the loop. *)
Fixpoint applyOptions (options : list Option) (opts : Options) : Options * error :=
  match options with
  | [] => (opts, None)
  | None :: rest => applyOptions rest opts
  | Some opt :: rest =>
      match opt opts with
      | (opts', None) => applyOptions rest opts'
      | (opts', Some err) => (opts', Some err)
      end
  end.

(** Lines 86-105.  The result is Go's pair of a pointer and an error:
    [(None, Some err)] is [nil, err]. *)
Definition NewSkeletonRendezvous (options : list Option)
  : option SkeletonRendezvous * error :=
  match applyOptions options GetDefaultOptions with
  | (_, Some err) => (None, Some err)
  | (opts, None) =>
      (Some {| options := opts; Clusters := []; Nodes := []; VirtualNodes := 0 |},
       None)
  end.

(** [sr.hash(target, key)]: reset, write both strings, read the digest
    (a [uint64]). *)
Definition hash (sr : SkeletonRendezvous) (target key : string) : Z :=
  let h := hash64 (options sr) in
  Sum64 h (Write h (Write h (Reset h) target) key) mod 2 ^ 64.

(** *** generateCluster *)

(** Lines 166-175: the first occurrences of the input, in order;
    [lookup] is the [map[string]bool] used as a set. *)
Fixpoint uniqueNodes (lookup : gset string) (nodes newNodes : list string)
  : list string :=
  match nodes with
  | [] => newNodes
  | node :: rest =>
      if decide (node ∈ lookup) then uniqueNodes lookup rest newNodes
      else uniqueNodes ({[node]} ∪ lookup) rest (newNodes ++ [node])
  end.

(** Lines 188-194: every node is appended to the cluster at [clusterIndex],
    which moves on once that cluster has reached the cluster size. *)
Fixpoint fillClusters (size : Z) (clusters : list (list string))
    (clusterIndex : nat) (newNodes : list string)
  : outcome (list (list string)) :=
  match newNodes with
  | [] => Returns clusters
  | node :: rest =>
      c <<- index clusters (Z.of_nat clusterIndex) ;;
      let clusters' := <[clusterIndex := c ++ [node]]> clusters in
      if size <=? Z.of_nat (length (c ++ [node]))
      then fillClusters size clusters' (S clusterIndex) rest
      else fillClusters size clusters' clusterIndex rest
  end.

(** Lines 205-209: the members of the dropped last cluster are dealt out
    over the first [clusterAmount] clusters.  ([clusterAmount] is at least
    1 here, so Go's [%] does not divide by zero.) *)
Fixpoint spreadCluster (clusterAmount : nat) (clusters : list (list string))
    (spreadClusterIndex : nat) (lastCluster : list string)
  : outcome (list (list string)) :=
  match lastCluster with
  | [] => Returns clusters
  | node :: rest =>
      c <<- index clusters (Z.of_nat spreadClusterIndex) ;;
      spreadCluster clusterAmount
        (<[spreadClusterIndex := c ++ [node]]> clusters)
        ((spreadClusterIndex + 1) `mod` clusterAmount)%nat rest
  end.

(** The ceiling of the logarithm of [c] in base [f], by repeated
    multiplication: [p] is [f ^ d]. *)
Fixpoint ceilLog (fuel : nat) (f c p d : Z) : Z :=
  match fuel with
  | O => d
  | S k => if c <=? p then d else ceilLog k f c (p * f) (d + 1)
  end.

Section Generate.
Context {conv : FloatToInt} {fm : FloatMath}.

(** Line 179-180: [int(math.Ceil(float64(n) / float64(size)))] for a
    length [n >= 0]. *)
Definition clusterAmountOf (n size : Z) : Z :=
  if size =? 0 then (if n =? 0 then int_of_NaN else int_of_posInf)
  else - ((- n) / size).

(** Line 217: [int(math.Ceil(math.Log(c) / math.Log(f)))].  The first
    cases follow the IEEE rules for the logarithm of 0, 1 and negative
    numbers and for division by 0 and infinity.  For [1 <= c < 2 ^ 31] and
    [f >= 2], with [d] the least exponent with [f ^ d >= c]: the result is
    [d] when [c] is no power of [f] (the quotient is not near an integer),
    when [c = 1] (the logarithm of 1 is 0) and when [c = f] (a number
    divided by itself is 1); for a power [c = f ^ d] with [d >= 2] the
    rounding of the two logarithms decides between [d] and [d + 1]. *)
Definition countVirtualNodes (clusterAmount fanOut : Z) : Z :=
  if (clusterAmount <? 0) || (fanOut <? 0) then int_of_NaN
  else if clusterAmount =? 0 then
    (if fanOut =? 0 then int_of_NaN else int_of_negInf)
  else if fanOut =? 0 then 0
  else if fanOut =? 1 then
    (if clusterAmount =? 1 then int_of_NaN else int_of_posInf)
  else if 2 ^ 31 <=? clusterAmount then depth_of_large clusterAmount fanOut
  else
    let d := ceilLog (S (Z.to_nat (Z.log2_up clusterAmount))) fanOut clusterAmount 1 0 in
    if (2 <=? d) && (fanOut ^ d =? clusterAmount) && quotient_above fanOut d
    then d + 1 else d.

(** Lines 196-211: the undersized last cluster is cut off and spread. *)
Definition mergeLastCluster (minSize : Z) (clusters : list (list string))
    (clusterAmount : Z) : outcome (list (list string) * Z) :=
  if 1 <? clusterAmount then
    lastCluster <<- index clusters (Z.of_nat (length clusters) - 1) ;;
    if Z.of_nat (length lastCluster) <? minSize then
      let clusters' := take (length clusters - 1) clusters in
      let clusterAmount' := clusterAmount - 1 in
      clusters'' <<- spreadCluster (Z.to_nat clusterAmount') clusters' 0 lastCluster ;;
      Returns (clusters'', clusterAmount')
    else Returns (clusters, clusterAmount)
  else Returns (clusters, clusterAmount).

Definition generateCluster (sr : SkeletonRendezvous) (nodes : list string)
  : outcome SkeletonRendezvous :=
  let o := options sr in
  let newNodes := uniqueNodes ∅ nodes [] in
  let clusterAmount := clusterAmountOf (Z.of_nat (length nodes)) (clusterSize o) in
  let clusters := Clusters sr ++ replicate (Z.to_nat clusterAmount) [] in
  clusters <<- fillClusters (clusterSize o) clusters 0 newNodes ;;
  merged <<- mergeLastCluster (minClusterSize o) clusters clusterAmount ;;
  Returns {| options := o;
             Clusters := merged.1;
             Nodes := Nodes sr ++ newNodes;
             VirtualNodes := countVirtualNodes merged.2 (fanOut o) |}.

(** *** SetNodes, RemoveNodes *)

Definition SetNodes (sr : SkeletonRendezvous) (nodes : list string)
  : outcome SkeletonRendezvous :=
  generateCluster sr nodes.

Definition RemoveNodes (sr : SkeletonRendezvous) (removedNodes : list string)
  : outcome SkeletonRendezvous :=
  let deletedNodes : gset string := list_to_set removedNodes in
  let newNodes := filter (fun node => node ∉ deletedNodes) (Nodes sr) in
  generateCluster
    {| options := options sr; Clusters := [];
       Nodes := Nodes sr; VirtualNodes := VirtualNodes sr |}
    newNodes.
End Generate.

(** *** FindNode *)

(** Lines 137-149: one level of the walk; the candidate [j] replaces the
    current one when its score is strictly greater. *)
Definition targetBranchAt (sr : SkeletonRendezvous) (key : string) (i : Z) : string :=
  snd (fold_left
         (fun (st : Z * string) (j : nat) =>
            let hashScore := hash sr (Itoa i +:+ Itoa (Z.of_nat j)) key in
            if st.1 <? hashScore then (hashScore, Itoa (Z.of_nat j)) else st)
         (seq 0 (Z.to_nat (fanOut (options sr))))
         (0, "")).

(** Lines 134-152. *)
Definition branchOf (sr : SkeletonRendezvous) (key : string) : string :=
  fold_left (fun branch i => branch +:+ targetBranchAt sr key (Z.of_nat i))
            (seq 0 (Z.to_nat (VirtualNodes sr))) "".

Section Select.
Context {fm : FloatMath}.

(** [int(math.Pow(float64(f), float64(k)))]. *)
Definition intPow (f k : Z) : Z :=
  if (0 <=? k) && (Z.abs (f ^ k) <? 2 ^ 53) then f ^ k else int_of_Pow f k.

(** Lines 238-242: the runes [vs] of the branch weighted by powers of the
    fan-out, the exponent [branchSize] going down by one with every rune; a
    rune that is no digit counts 0, the error of [Atoi] being dropped. *)
Fixpoint branchIndex (f : Z) (vs : list string) (branchSize currentBranchIndex : Z)
  : Z :=
  match vs with
  | [] => currentBranchIndex
  | v :: rest =>
      let currentVal := default 0 (Atoi v) in
      branchIndex f rest (branchSize - 1)
        (wrap (currentBranchIndex + intPow f branchSize * currentVal))
  end.

(** Lines 220-249.  The second component is Go's [error]: [true] when
    [Atoi] failed. *)
Definition selectClusterNodes (sr : SkeletonRendezvous) (branch : string)
  : outcome (list string * bool) :=
  let n := Z.of_nat (length (Clusters sr)) in
  if (String.length branch =? 1)%nat then
    match Atoi branch with
    | None => Returns ([], true)
    | Some branchCluster =>
        if n - 1 <? branchCluster
        then c <<- index (Clusters sr) (branchCluster - 1) ;; Returns (c, false)
        else c <<- index (Clusters sr) branchCluster ;; Returns (c, false)
    end
  else
    let currentBranchIndex :=
      branchIndex (fanOut (options sr))
                  (runes (String.length branch) (list_ascii_of_string branch))
                  (Z.of_nat (String.length branch) - 1) 0 in
    if n - 1 <? currentBranchIndex
    then c <<- index (Clusters sr) (currentBranchIndex - n - 1) ;; Returns (c, false)
    else c <<- index (Clusters sr) currentBranchIndex ;; Returns (c, false).

(** Lines 251-265. *)
Definition findHighestRandomWeight (sr : SkeletonRendezvous) (key : string)
    (nodes : list string) : string :=
  snd (fold_left
         (fun (st : Z * string) (node : string) =>
            let nodeScore := hash sr node key in
            if st.1 <? nodeScore then (nodeScore, node) else st)
         nodes (0, "")).

(** Lines 133-163. *)
Definition FindNode (sr : SkeletonRendezvous) (key : string) : outcome string :=
  r <<- selectClusterNodes sr (branchOf sr key) ;;
  if r.2 then Returns ""
  else Returns (findHighestRandomWeight sr key r.1).
End Select.

(** ** Reference definitions

    The properties below compare the code with these definitions, which
    follow the prose description of the algorithm rather than the code. *)

(** [count] contiguous chunks of [size] elements, in order. *)
Fixpoint chunks {A : Type} (count size : nat) (l : list A) : list (list A) :=
  match count with
  | O => []
  | S k => take size l :: chunks k size (drop size l)
  end.

(** Round-robin over [k] receivers: of the members at positions [t],
    [t + 1], ... those that fall to receiver [i], in their original order. *)
Fixpoint dealt {A : Type} (k i t : nat) (l : list A) : list A :=
  match l with
  | [] => []
  | x :: r =>
      if decide ((t mod k)%nat = i) then x :: dealt k i (S t) r
      else dealt k i (S t) r
  end.

(** ceil(n / size) for positive [size]. *)
Definition ceilDiv (n size : nat) : nat := ((n + size - 1) / size)%nat.

(** When there are several chunks and the last one is shorter than
    [minSize], it is discarded and its members are dealt round-robin over
    the others, from chunk 0. *)
Definition mergeUndersized {A : Type} (minSize : Z) (cs : list (list A))
  : list (list A) :=
  let count := length cs in
  let lastChunk := default [] (last cs) in
  if (1 <? count)%nat && (Z.of_nat (length lastChunk) <? minSize) then
    imap (fun i c => c ++ dealt (count - 1) i 0 lastChunk) (take (count - 1) cs)
  else cs.

(** The partition of [l]: ceil(n / size) contiguous chunks of [size], the
    undersized last chunk merged into the others. *)
Definition partitionSpec {A : Type} (size : nat) (minSize : Z) (l : list A)
  : list (list A) :=
  mergeUndersized minSize (chunks (ceilDiv (length l) size) size l).

(** The depth suits the table (stated for a non-empty table): the tree has
    a leaf for every cluster, [fanOut ^ depth >= cluster count], and the
    depth is the least such, or one more than the least when the cluster
    count is an exact power [fanOut ^ k] with [k >= 2]. *)
Definition depthFits (sr : SkeletonRendezvous) : Prop :=
  Clusters sr <> [] ->
  0 <= VirtualNodes sr
  /\ Z.of_nat (length (Clusters sr)) <= fanOut (options sr) ^ VirtualNodes sr
  /\ ((forall d, 0 <= d < VirtualNodes sr ->
                 fanOut (options sr) ^ d < Z.of_nat (length (Clusters sr)))
      \/ (3 <= VirtualNodes sr
          /\ Z.of_nat (length (Clusters sr))
             = fanOut (options sr) ^ (VirtualNodes sr - 1))).

(** The score of digit [j] at level [i] of the walk for [key]. *)
Definition score (sr : SkeletonRendezvous) (key : string) (i j : nat) : Z :=
  hash sr (Itoa (Z.of_nat i) +:+ Itoa (Z.of_nat j)) key.

(** [j] is the digit of strictly greatest score at level [i], the lowest
    such digit on a tie. *)
Definition bestDigit (sr : SkeletonRendezvous) (key : string) (i j : nat) : Prop :=
  Z.of_nat j < fanOut (options sr)
  /\ (forall j', Z.of_nat j' < fanOut (options sr) -> score sr key i j' <= score sr key i j)
  /\ (forall j', (j' < j)%nat -> score sr key i j' < score sr key i j).

(** The numeral written with the digits [ds], most significant first. *)
Definition numeral (ds : list nat) : string :=
  fold_right (fun d s => Itoa (Z.of_nat d) +:+ s) "" ds.

(** The value of the digits [ds] in base [f], most significant first. *)
Definition positional (f : Z) (ds : list nat) : Z :=
  fold_left (fun acc d => acc * f + Z.of_nat d) ds 0.

(** The number of nodes the filling loop puts into a cluster before it
    moves on: up to the cluster size, and at least one. *)
Definition room (size : Z) (c : list string) : nat :=
  Z.to_nat (Z.max 1 (size - Z.of_nat (length c))).

Definition roomSum (size : Z) (cs : list (list string)) : nat :=
  foldr (fun c n => (room size c + n)%nat) 0%nat cs.

(** [n] elements cut into chunks of [size] leave no undersized last chunk
    to merge: the minimum is at most 1, or it is at most [size] and [size]
    divides [n]. *)
Definition wholeChunks (size : nat) (minSize : Z) (n : nat) : Prop :=
  minSize <= 1 \/ (minSize <= Z.of_nat size /\ (n mod size = 0)%nat).

(** The cluster index a branch stands for, as [selectClusterNodes] reads it
    before it compares it with the size of the table. *)
Definition branchValue {fm : FloatMath} (sr : SkeletonRendezvous) (branch : string)
  : option Z :=
  if (String.length branch =? 1)%nat then Atoi branch
  else Some (branchIndex (fanOut (options sr))
                         (runes (String.length branch) (list_ascii_of_string branch))
                         (Z.of_nat (String.length branch) - 1) 0).

(** ** Concrete instances used below *)

(** Arithmetic in which no rounding shows.  The closed evaluations below
    are stated with it; none of them reaches a case that consults it. *)
Definition exactMath : FloatMath :=
  {| quotient_above := fun _ _ => false;
     depth_of_large := fun c f => ceilLog (S (Z.to_nat (Z.log2_up c))) f c 1 0;
     int_of_Pow := fun f k => f ^ k |}.

(** A new instance with the given options. *)
Definition newSkeleton (opts : Options) : SkeletonRendezvous :=
  {| options := opts; Clusters := []; Nodes := []; VirtualNodes := 0 |}.

(** [NewSkeletonRendezvous()]. *)
Definition defaultSkeleton : SkeletonRendezvous := newSkeleton GetDefaultOptions.

(** The instance of the package's tests,
    [NewSkeletonRendezvous(FanOut(3), ClusterSize(2), MinClusterSize(2))]. *)
Definition testSkeleton : SkeletonRendezvous :=
  newSkeleton {| fanOut := 3; hash64 := fnv64; clusterSize := 2; minClusterSize := 2 |}.

(** [NewSkeletonRendezvous(FanOut(11))]. *)
Definition wideSkeleton : SkeletonRendezvous :=
  newSkeleton {| fanOut := 11; hash64 := fnv64; clusterSize := 2; minClusterSize := 2 |}.

(** [NewSkeletonRendezvous(ClusterSize(4))]. *)
Definition roomySkeleton : SkeletonRendezvous :=
  newSkeleton {| fanOut := 3; hash64 := fnv64; clusterSize := 4; minClusterSize := 2 |}.

Definition fourNodes : list string := ["jg1"; "jg2"; "jg3"; "jg4"].
Definition fiveNodes : list string := ["n1"; "n2"; "n3"; "n4"; "n5"].
Definition sixNodes : list string := ["n1"; "n2"; "n3"; "n4"; "n5"; "n6"].
Definition eightNodes : list string :=
  ["n1"; "n2"; "n3"; "n4"; "n5"; "n6"; "n7"; "n8"].
Definition twelveNodes : list string :=
  eightNodes ++ ["n9"; "n10"; "n11"; "n12"].

(** A pair of byte strings whose concatenation has FNV-1 digest 0. *)
Definition zeroNode : string :=
  String "146" (String "006" (String "119" (String "076" EmptyString))).
Definition zeroKey : string :=
  String "224" (String "047" (String "137" (String "042" (String "210" EmptyString)))).

(** The test instance after [SetNodes sixNodes]. *)
Definition sixSkeleton : SkeletonRendezvous :=
  {| options := options testSkeleton;
     Clusters := [["n1"; "n2"]; ["n3"; "n4"]; ["n5"; "n6"]];
     Nodes := sixNodes;
     VirtualNodes := 1 |}.

(** [sixSkeleton] after [RemoveNodes ["n5"; "n6"]]. *)
Definition sixMinusLast : SkeletonRendezvous :=
  {| options := options testSkeleton;
     Clusters := [["n1"; "n2"]; ["n3"; "n4"]];
     Nodes := sixNodes ++ ["n1"; "n2"; "n3"; "n4"];
     VirtualNodes := 1 |}.

(** * Properties *)

(** ** The constructor *)

(** The named instances are what the constructor returns for their
    options. *)
Lemma NewSkeletonRendezvous_instances :
  NewSkeletonRendezvous [] = (Some defaultSkeleton, None)
  /\ NewSkeletonRendezvous [FanOut 3; ClusterSize 2; MinClusterSize 2]
     = (Some testSkeleton, None)
  /\ NewSkeletonRendezvous [FanOut 11] = (Some wideSkeleton, None)
  /\ NewSkeletonRendezvous [ClusterSize 4] = (Some roomySkeleton, None).
Proof. repeat split. Qed.

(** ** The hash adapter *)

Lemma Write_app (h : Hash64) (st : hstate h) (a b : string) :
  Write h (Write h st a) b = Write h st (a +:+ b).
Proof.
  unfold Write. rewrite <- fold_left_app. f_equal.
  revert b. induction a as [|c a IH]; intros b; simpl; [reflexivity|].
  now rewrite IH.
Qed.

(** C10: [hash] sees only the concatenation of its two arguments: pairs
    with the same byte concatenation have the same digest. *)
Theorem hash_concat (sr : SkeletonRendezvous) (a b c d : string) :
  a +:+ b = c +:+ d -> hash sr a b = hash sr c d.
Proof.
  intros Heq. unfold hash. cbv zeta.
  now rewrite !Write_app, Heq.
Qed.

Lemma hash_concat_witness :
  hash testSkeleton "1" "23" = hash testSkeleton "12" "3".
Proof. apply (hash_concat testSkeleton "1" "23" "12" "3"). reflexivity. Defined.

(** ** Keeping the strictly greatest score *)

Section Scan.
Context {A B : Type} (f : A -> Z) (g : A -> B).

Lemma scan_none (l : list A) (st : Z * B) :
  Forall (fun x => f x <= st.1) l ->
  fold_left (fun st x => if st.1 <? f x then (f x, g x) else st) l st = st.
Proof.
  revert st. induction l as [|x l IH]; intros st Hall; simpl; [reflexivity|].
  inversion Hall as [|? ? Hx Hl]; subst.
  destruct (Z.ltb_spec st.1 (f x)); [lia|]. now apply IH.
Qed.

Lemma scan_some (l : list A) (st : Z * B) :
  Exists (fun x => st.1 < f x) l ->
  exists pre x suf,
    l = pre ++ x :: suf
    /\ fold_left (fun st x => if st.1 <? f x then (f x, g x) else st) l st = (f x, g x)
    /\ st.1 < f x
    /\ Forall (fun y => f y < f x) pre
    /\ Forall (fun y => f y <= f x) suf.
Proof.
  revert st. induction l as [|x l IH]; intros st Hex; [inversion Hex|].
  simpl. destruct (Z.ltb_spec st.1 (f x)) as [Hlt|Hge].
  - destruct (decide (Exists (fun y => f x < f y) l)) as [Hl|Hl].
    + destruct (IH (f x, g x) Hl) as (pre & y & suf & -> & Hres & Hgt & Hpre & Hsuf).
      simpl in Hgt. exists (x :: pre), y, suf. repeat split; try assumption; try lia.
      constructor; [lia|assumption].
    + exists [], x, l. repeat split; try assumption; [|constructor|].
      * apply scan_none. apply Forall_forall. intros y Hy. simpl.
        destruct (Z.le_gt_cases (f y) (f x)) as [|Hc]; [assumption|].
        exfalso. apply Hl. apply Exists_exists. exists y. split; [|lia].
        exact Hy.
      * apply Forall_forall. intros y Hy.
        destruct (Z.le_gt_cases (f y) (f x)) as [|Hc]; [assumption|].
        exfalso. apply Hl. apply Exists_exists. exists y. split; [|lia].
        exact Hy.
  - assert (Hl : Exists (fun y => st.1 < f y) l).
    { apply Exists_cons in Hex as [Hx|Hx]; [lia|exact Hx]. }
    destruct (IH st Hl) as (pre & y & suf & -> & Hres & Hgt & Hpre & Hsuf).
    exists (x :: pre), y, suf. repeat split; try assumption.
    constructor; [lia|assumption].
Qed.
End Scan.

(** ** Intra-cluster selection *)

(** An empty cluster yields the empty placeholder without a failure; when
    some member has a non-zero score, the result is the first member, in
    cluster order, whose score is the greatest. *)
Theorem findHighestRandomWeight_first_greatest
    (sr : SkeletonRendezvous) (key : string) (nodes : list string) :
  findHighestRandomWeight sr key [] = ""
  /\ (Exists (fun n => 0 < hash sr n key) nodes ->
      exists pre suf,
        nodes = pre ++ findHighestRandomWeight sr key nodes :: suf
        /\ Forall (fun n => hash sr n key < hash sr (findHighestRandomWeight sr key nodes) key) pre
        /\ Forall (fun n => hash sr n key <= hash sr (findHighestRandomWeight sr key nodes) key) suf).
Proof.
  split; [reflexivity|]. intros Hex.
  destruct (scan_some (fun n => hash sr n key) (fun n => n) nodes (0, "") Hex)
    as (pre & x & suf & Hl & Hres & _ & Hpre & Hsuf).
  unfold findHighestRandomWeight. rewrite Hres. simpl.
  exists pre, suf. auto.
Qed.

Lemma findHighestRandomWeight_first_greatest_witness :
  exists pre suf,
    ["n3"; "n4"] = pre ++ findHighestRandomWeight testSkeleton "apple" ["n3"; "n4"] :: suf
    /\ Forall (fun n => hash testSkeleton n "apple"
                        < hash testSkeleton (findHighestRandomWeight testSkeleton "apple" ["n3"; "n4"]) "apple") pre
    /\ Forall (fun n => hash testSkeleton n "apple"
                        <= hash testSkeleton (findHighestRandomWeight testSkeleton "apple" ["n3"; "n4"]) "apple") suf.
Proof.
  apply (proj2 (findHighestRandomWeight_first_greatest testSkeleton "apple" ["n3"; "n4"])).
  apply Exists_cons_hd. vm_compute. reflexivity.
Defined.

Section ZeroScore.
Context {fm : FloatMath}.

(** C4: a member whose score is 0 is never selected, because the running
    maximum starts at 0 and is compared strictly.  With the default hash
    the only member of the cluster below scores 0 for the key: the
    selection returns the empty string, which is no member of the cluster,
    and so does [FindNode] on the instance that holds just this node. *)
Theorem findHighestRandomWeight_zero_score :
  hash defaultSkeleton zeroNode zeroKey = 0
  /\ findHighestRandomWeight defaultSkeleton zeroKey [zeroNode] = ""
  /\ ("" ∉ [zeroNode])
  /\ (exists s,
        SetNodes (conv := amd64) defaultSkeleton [zeroNode] = Returns s
        /\ Clusters s = [[zeroNode]]
        /\ FindNode s zeroKey = Returns "").
Proof.
  split; [vm_compute; reflexivity|]. split; [vm_compute; reflexivity|].
  split.
  - intros Hin. apply list_elem_of_singleton in Hin. discriminate Hin.
  - eexists. split; [reflexivity|]. split; vm_compute; reflexivity.
Qed.
End ZeroScore.

(** ** The branch selector *)

Lemma append_cons (x : ascii) (a b : string) :
  String x a +:+ b = String x (a +:+ b).
Proof. reflexivity. Qed.

Lemma append_assoc (a b c : string) : (a +:+ b) +:+ c = a +:+ (b +:+ c).
Proof.
  induction a as [|x a IH]; [reflexivity|]. now rewrite !append_cons, IH.
Qed.

Lemma append_empty_r (a : string) : a +:+ "" = a.
Proof.
  induction a as [|x a IH]; [reflexivity|]. now rewrite append_cons, IH.
Qed.

Lemma length_append (a b : string) :
  String.length (a +:+ b) = (String.length a + String.length b)%nat.
Proof.
  induction a as [|x a IH]; [reflexivity|].
  rewrite append_cons. simpl. now rewrite IH.
Qed.

Lemma Itoa_digit_length (d : nat) :
  (d < 10)%nat -> String.length (Itoa (Z.of_nat d)) = 1%nat.
Proof. intros Hd. do 10 (destruct d as [|d]; [reflexivity|]). lia. Qed.

Lemma numeral_length (ds : list nat) :
  Forall (fun d => (d < 10)%nat) ds -> String.length (numeral ds) = length ds.
Proof.
  induction 1 as [|d ds Hd _ IH]; simpl; [reflexivity|].
  now rewrite length_append, Itoa_digit_length, IH.
Qed.

(** A split of [seq 0 n] puts exactly the numbers below the pivot before it. *)
Lemma seq_split (n : nat) (pre suf : list nat) (x : nat) :
  seq 0 n = pre ++ x :: suf ->
  (x < n)%nat /\ (forall j, (j < x)%nat -> j ∈ pre) /\
  (forall j, (j < n)%nat -> j ∈ pre \/ j = x \/ j ∈ suf).
Proof.
  intros Hs.
  assert (Hx : x = length pre /\ (x < n)%nat).
  { pose proof (list_lookup_middle pre suf x (length pre) eq_refl) as Hm.
    rewrite <- Hs in Hm. apply lookup_seq in Hm. lia. }
  destruct Hx as [-> Hlt]. split; [exact Hlt|]. split.
  - intros j Hj. destruct (lookup_lt_is_Some_2 pre j Hj) as [y Hy].
    assert (Hy' : seq 0 n !! j = Some y).
    { rewrite Hs. rewrite lookup_app_l by exact Hj. exact Hy. }
    apply lookup_seq in Hy' as [-> _]. apply list_elem_of_lookup. now exists j.
  - intros j Hj.
    assert (Hin : j ∈ seq 0 n) by (apply elem_of_seq; lia).
    rewrite Hs in Hin. apply elem_of_app in Hin as [Hin|Hin]; [now left|].
    apply elem_of_cons in Hin as [Hin|Hin]; [right; now left|right; now right].
Qed.

(** One level: when some digit has a non-zero score, the level contributes
    the best digit. *)
Lemma targetBranchAt_best (sr : SkeletonRendezvous) (key : string) (i : nat) :
  (exists j, Z.of_nat j < fanOut (options sr) /\ 0 < score sr key i j) ->
  exists d, bestDigit sr key i d
            /\ targetBranchAt sr key (Z.of_nat i) = Itoa (Z.of_nat d).
Proof.
  intros (j & Hj & Hpos).
  set (n := Z.to_nat (fanOut (options sr))).
  assert (Hex : Exists (fun j => (0, "").1 < score sr key i j) (seq 0 n)).
  { apply Exists_exists. exists j. split; [apply elem_of_seq; lia|exact Hpos]. }
  destruct (scan_some (score sr key i) (fun j => Itoa (Z.of_nat j)) (seq 0 n) (0, "") Hex)
    as (pre & d & suf & Hs & Hres & _ & Hpre & Hsuf).
  destruct (seq_split n pre suf d Hs) as (Hd & Hlow & Hall).
  rewrite Forall_forall in Hpre. rewrite Forall_forall in Hsuf.
  exists d. split.
  - split; [lia|]. split.
    + intros j' Hj'. destruct (Hall j') as [Hin|[->|Hin]]; [lia| | |].
      * apply Z.lt_le_incl. now apply Hpre.
      * lia.
      * now apply Hsuf.
    + intros j' Hj'. apply Hpre. now apply Hlow.
  - unfold targetBranchAt. fold n. unfold score in Hres. now rewrite Hres.
Qed.

Lemma branch_levels (sr : SkeletonRendezvous) (key : string) (ls : list nat) (acc : string) :
  (forall i, i ∈ ls -> exists j, Z.of_nat j < fanOut (options sr) /\ 0 < score sr key i j) ->
  exists ds,
    Forall2 (bestDigit sr key) ls ds
    /\ fold_left (fun branch i => branch +:+ targetBranchAt sr key (Z.of_nat i)) ls acc
       = acc +:+ numeral ds.
Proof.
  revert acc. induction ls as [|i ls IH]; intros acc Hall.
  - exists []. split; [constructor|]. simpl. now rewrite append_empty_r.
  - destruct (targetBranchAt_best sr key i) as (d & Hbest & Hd).
    { apply Hall. left. }
    destruct (IH (acc +:+ targetBranchAt sr key (Z.of_nat i))) as (ds & Hds & Hfold).
    { intros i' Hi'. apply Hall. now right. }
    exists (d :: ds). split; [now constructor|].
    simpl. rewrite Hfold, Hd. apply append_assoc.
Qed.

Section BranchSelector.
Context {fm : FloatMath}.

(** For a fan-out of at most 10, and when at every level some digit has a
    non-zero score, the branch is the numeral of exactly [VirtualNodes]
    digits whose i-th digit has the strictly greatest score of level i, the
    lowest digit winning a tie; with depth 0 the branch is empty and
    resolves to cluster 0 of a non-empty table. *)
Theorem branchOf_best_digits (sr : SkeletonRendezvous) (key : string) :
  fanOut (options sr) <= 10 ->
  (forall i, Z.of_nat i < VirtualNodes sr ->
             exists j, Z.of_nat j < fanOut (options sr) /\ 0 < score sr key i j) ->
  (exists ds,
      branchOf sr key = numeral ds
      /\ length ds = Z.to_nat (VirtualNodes sr)
      /\ String.length (branchOf sr key) = Z.to_nat (VirtualNodes sr)
      /\ forall i d, ds !! i = Some d -> bestDigit sr key i d)
  /\ (VirtualNodes sr <= 0 ->
      branchOf sr key = ""
      /\ forall c cs, Clusters sr = c :: cs ->
                      selectClusterNodes sr (branchOf sr key) = Returns (c, false)).
Proof.
  intros Hfan Hscore. split.
  - destruct (branch_levels sr key (seq 0 (Z.to_nat (VirtualNodes sr))) "") as (ds & Hds & Hfold).
    { intros i Hi. apply Hscore. apply elem_of_seq in Hi. lia. }
    assert (Hlen : length ds = Z.to_nat (VirtualNodes sr)).
    { rewrite <- (Forall2_length _ _ _ Hds). apply length_seq. }
    assert (Hbest : forall i d, ds !! i = Some d -> bestDigit sr key i d).
    { intros i d Hd. destruct (Forall2_lookup_r _ _ _ _ _ Hds Hd) as (i' & Hi' & Hb).
      apply lookup_seq in Hi' as [-> _]. exact Hb. }
    exists ds. unfold branchOf. rewrite Hfold.
    change ("" +:+ numeral ds) with (numeral ds).
    split; [reflexivity|]. split; [exact Hlen|]. split; [|exact Hbest].
    rewrite numeral_length; [exact Hlen|].
    apply Forall_forall. intros d Hd. apply list_elem_of_lookup in Hd as [i Hd].
    destruct (Hbest i d Hd) as [Hlt _]. lia.
  - intros Hdepth.
    assert (Hb : branchOf sr key = "").
    { unfold branchOf. replace (Z.to_nat (VirtualNodes sr)) with 0%nat by lia. reflexivity. }
    split; [exact Hb|]. intros c cs Hcl. rewrite Hb.
    unfold selectClusterNodes. rewrite Hcl. simpl.
    destruct (Z.ltb_spec (Z.of_nat (S (length cs)) - 1) 0); [lia|]. reflexivity.
Qed.
End BranchSelector.

Lemma branchOf_best_digits_witness :
  (exists ds,
      branchOf sixSkeleton "apple" = numeral ds
      /\ length ds = Z.to_nat (VirtualNodes sixSkeleton)
      /\ String.length (branchOf sixSkeleton "apple") = Z.to_nat (VirtualNodes sixSkeleton)
      /\ forall i d, ds !! i = Some d -> bestDigit sixSkeleton "apple" i d)
  /\ (VirtualNodes sixSkeleton <= 0 ->
      branchOf sixSkeleton "apple" = ""
      /\ forall c cs, Clusters sixSkeleton = c :: cs ->
                      selectClusterNodes (fm := exactMath) sixSkeleton
                                         (branchOf sixSkeleton "apple")
                      = Returns (c, false)).
Proof.
  apply (branchOf_best_digits (fm := exactMath) sixSkeleton "apple").
  - simpl. lia.
  - intros i Hi. simpl in Hi. assert (i = 0%nat) by lia. subst i.
    exists 0%nat. split; vm_compute; reflexivity.
Defined.

Section TwoCharacters.
Context {fm : FloatMath}.

(** C2: with fan-out 11 the winning digit of the single level is 10,
    written with two characters, so the branch of a tree of depth 1 has
    length 2; the resolver reads it as the two digits 1 and 0, that is as
    index 11, and the lookup panics. *)
Theorem branchOf_two_characters :
  exists s,
    SetNodes (conv := amd64) wideSkeleton fourNodes = Returns s
    /\ Clusters s = [["jg1"; "jg2"]; ["jg3"; "jg4"]]
    /\ VirtualNodes s = 1
    /\ branchOf s "key" = "10"
    /\ String.length (branchOf s "key") = 2%nat
    /\ FindNode s "key" = Panics (IndexOutOfRange 8 2).
Proof.
  eexists. split; [reflexivity|].
  repeat split; vm_compute; reflexivity.
Qed.
End TwoCharacters.

(** ** The cluster partitioner *)

Lemma index_lookup {A : Type} (l : list A) (i : nat) (x : A) :
  l !! i = Some x -> index l (Z.of_nat i) = Returns x.
Proof.
  intros Hl. unfold index.
  destruct (Z.ltb_spec (Z.of_nat i) 0); [lia|]. now rewrite Nat2Z.id, Hl.
Qed.

Lemma uniqueNodes_NoDup (nodes : list string) (lookup : gset string) (acc : list string) :
  NoDup nodes -> (forall x, x ∈ nodes -> x ∉ lookup) ->
  uniqueNodes lookup nodes acc = acc ++ nodes.
Proof.
  revert lookup acc. induction nodes as [|node rest IH]; intros lookup acc Hnd Hfresh; simpl.
  - now rewrite app_nil_r.
  - apply NoDup_cons in Hnd as [Hnotin Hnd].
    destruct (decide (node ∈ lookup)) as [Hin|_].
    + exfalso. apply (Hfresh node); [left|exact Hin].
    + rewrite (IH ({[node]} ∪ lookup) (acc ++ [node]) Hnd).
      { now rewrite <- app_assoc. }
      intros x Hx Hx'. apply elem_of_union in Hx' as [Hx'|Hx'].
      * apply elem_of_singleton in Hx'. subst. contradiction.
      * apply (Hfresh x); [now right|exact Hx'].
Qed.

Lemma chunks_nil {A : Type} (k size : nat) :
  chunks k size (@nil A) = replicate k [].
Proof.
  induction k as [|k IH]; simpl; [reflexivity|].
  now rewrite take_nil, drop_nil, IH.
Qed.

Lemma length_chunks {A : Type} (k size : nat) (l : list A) :
  length (chunks k size l) = k.
Proof. revert l. induction k as [|k IH]; intros l; simpl; [reflexivity|]. now rewrite IH. Qed.

(** The filling loop, started inside a cluster [cur] that is not yet full
    and followed by [r] empty clusters, cuts what it is given into chunks. *)
Lemma fillClusters_chunks (sz : nat) (l : list string) :
  (1 <= sz)%nat ->
  forall (done : list (list string)) (cur : list string) (r : nat),
    (length cur < sz)%nat ->
    (length cur + length l <= sz * S r)%nat ->
    fillClusters (Z.of_nat sz) (done ++ cur :: replicate r []) (length done) l
    = Returns (done ++ chunks (S r) sz (cur ++ l)).
Proof.
  intros Hsz. induction l as [|x l IH]; intros done cur r Hcur Hcap.
  - simpl. rewrite app_nil_r, take_ge, drop_ge by lia. now rewrite chunks_nil.
  - cbn [fillClusters].
    rewrite (index_lookup _ _ cur) by (apply list_lookup_middle; reflexivity).
    cbn [obind].
    assert (Hins : <[length done := cur ++ [x]]> (done ++ cur :: replicate r [])
                   = done ++ (cur ++ [x]) :: replicate r []).
    { rewrite insert_app_r_alt by lia. now rewrite Nat.sub_diag. }
    rewrite Hins. rewrite length_app. simpl length.
    simpl length in Hcap.
    destruct (Z.leb_spec (Z.of_nat sz) (Z.of_nat (length cur + 1))) as [Hfull|Hroom].
    + assert (Hlen : length (cur ++ [x]) = sz) by (rewrite length_app; simpl; lia).
      destruct r as [|r].
      * assert (l = []) by (destruct l; [reflexivity|simpl in Hcap; lia]). subst l.
        simpl. rewrite take_ge by lia. reflexivity.
      * replace (done ++ (cur ++ [x]) :: replicate (S r) [])
          with ((done ++ [cur ++ [x]]) ++ [] :: replicate r [])
          by (now rewrite <- app_assoc).
        replace (S (length done)) with (length (done ++ [cur ++ [x]]))
          by (rewrite length_app; simpl; lia).
        rewrite (IH _ [] r) by (simpl; lia).
        replace (cur ++ x :: l) with ((cur ++ [x]) ++ l) by (now rewrite <- app_assoc).
        rewrite <- app_assoc. cbn [chunks app].
        rewrite (take_app_length' (cur ++ [x]) l sz) by (now symmetry).
        rewrite !(drop_app_length' (cur ++ [x]) l sz) by (now symmetry).
        reflexivity.
    + rewrite (IH done (cur ++ [x]) r) by (rewrite ?length_app; simpl; lia).
      now rewrite <- app_assoc.
Qed.

Lemma imap_app_nil {A : Type} (l : list (list A)) :
  imap (fun (_ : nat) c => c ++ []) l = l.
Proof.
  apply list_eq. intros i. rewrite list_lookup_imap.
  destruct (l !! i) as [c|]; simpl; [now rewrite app_nil_r|reflexivity].
Qed.

(** Dealing one more member: it is appended to cluster [t mod k]. *)
Lemma imap_dealt_step {A : Type} (k t : nat) (x : A) (rest c : list A)
    (clusters : list (list A)) :
  clusters !! (t mod k)%nat = Some c ->
  imap (fun i c => c ++ dealt k i t (x :: rest)) clusters
  = imap (fun i c => c ++ dealt k i (S t) rest) (<[(t mod k)%nat := c ++ [x]]> clusters).
Proof.
  intros Hc. apply list_eq. intros i. rewrite !list_lookup_imap. simpl.
  destruct (decide ((t mod k)%nat = i)) as [<-|Hne].
  - rewrite list_lookup_insert_eq by (eapply lookup_lt_Some; exact Hc).
    rewrite Hc. simpl. now rewrite <- app_assoc.
  - rewrite list_lookup_insert_ne by exact Hne. reflexivity.
Qed.

(** The spreading loop deals member [t] to cluster [t mod k]. *)
Lemma spreadCluster_dealt (k : nat) (lastCluster : list string) :
  (1 <= k)%nat ->
  forall (clusters : list (list string)) (t : nat),
    length clusters = k ->
    spreadCluster k clusters (t mod k)%nat lastCluster
    = Returns (imap (fun i c => c ++ dealt k i t lastCluster) clusters).
Proof.
  intros Hk. induction lastCluster as [|x rest IH]; intros clusters t Hlen.
  - simpl. now rewrite imap_app_nil.
  - cbn [spreadCluster].
    assert (Hlt : (t mod k < length clusters)%nat)
      by (rewrite Hlen; apply Nat.mod_upper_bound; lia).
    destruct (lookup_lt_is_Some_2 clusters _ Hlt) as [c Hc].
    rewrite (index_lookup _ _ c Hc). cbn [obind].
    replace ((t mod k + 1) mod k)%nat with (S t mod k)%nat
      by (rewrite <- Nat.add_1_r; symmetry; apply Nat.Div0.add_mod_idemp_l).
    rewrite IH by (now rewrite length_insert).
    now rewrite (imap_dealt_step k t x rest c clusters Hc).
Qed.

(** *** The reference partition loses and invents nothing *)

Lemma elem_of_concat {A : Type} (x : A) (ls : list (list A)) :
  x ∈ concat ls <-> exists l, l ∈ ls /\ x ∈ l.
Proof.
  rewrite list_elem_of_In, in_concat.
  split; intros (l & H1 & H2); exists l; rewrite ?list_elem_of_In in *; auto.
Qed.

Lemma concat_chunks {A : Type} (k sz : nat) (l : list A) :
  (length l <= k * sz)%nat -> concat (chunks k sz l) = l.
Proof.
  revert l. induction k as [|k IH]; intros l Hl; simpl.
  - destruct l; [reflexivity|simpl in Hl; lia].
  - rewrite IH by (rewrite length_drop; lia). apply take_drop.
Qed.

Lemma concat_insert_app {A : Type} (cs : list (list A)) (j : nat) (c e : list A) :
  cs !! j = Some c -> concat (<[j := c ++ e]> cs) ≡ₚ concat cs ++ e.
Proof.
  intros Hc. rewrite insert_take_drop by (eapply lookup_lt_Some; exact Hc).
  rewrite <- (take_drop_middle cs j c Hc) at 3.
  rewrite !concat_app, !concat_cons, <- !app_assoc.
  do 2 f_equiv. apply Permutation_app_comm.
Qed.

Lemma concat_imap_dealt {A : Type} (k : nat) (lastChunk : list A) :
  (1 <= k)%nat ->
  forall (cs : list (list A)) (t : nat),
    length cs = k ->
    concat (imap (fun i c => c ++ dealt k i t lastChunk) cs) ≡ₚ concat cs ++ lastChunk.
Proof.
  intros Hk. induction lastChunk as [|x rest IH]; intros cs t Hlen.
  - simpl. now rewrite imap_app_nil, app_nil_r.
  - assert (Hlt : (t mod k < length cs)%nat)
      by (rewrite Hlen; apply Nat.mod_upper_bound; lia).
    destruct (lookup_lt_is_Some_2 cs _ Hlt) as [c Hc].
    rewrite (imap_dealt_step k t x rest c cs Hc).
    rewrite IH by (now rewrite length_insert).
    rewrite (concat_insert_app cs _ c [x] Hc). now rewrite <- app_assoc.
Qed.

Lemma concat_mergeUndersized {A : Type} (minSize : Z) (cs : list (list A)) :
  concat (mergeUndersized minSize cs) ≡ₚ concat cs.
Proof.
  unfold mergeUndersized. cbv zeta.
  destruct (Nat.ltb_spec 1 (length cs)) as [Hk|Hk]; cbn [andb]; [|reflexivity].
  destruct (_ <? minSize); [|reflexivity].
  destruct (last cs) as [x|] eqn:Hlast.
  - apply last_Some in Hlast as [cs' ->]. rewrite length_app in *. simpl in *.
    replace (length cs' + 1 - 1)%nat with (length cs') by lia.
    rewrite take_app_length.
    rewrite (concat_imap_dealt (length cs') x ltac:(lia) cs' 0 eq_refl).
    rewrite concat_app. simpl. now rewrite app_nil_r.
  - apply last_None in Hlast. subst cs. simpl in Hk. lia.
Qed.

Lemma ceilDiv_capacity (n sz : nat) : (1 <= sz)%nat -> (n <= sz * ceilDiv n sz)%nat.
Proof.
  intros Hsz. unfold ceilDiv.
  pose proof (Nat.div_mod_eq (n + sz - 1) sz) as Hdm.
  pose proof (Nat.mod_upper_bound (n + sz - 1) sz ltac:(lia)) as Hub.
  nia.
Qed.

Lemma uniqueNodes_length (nodes : list string) (lookup : gset string) (acc : list string) :
  (length (uniqueNodes lookup nodes acc) <= length acc + length nodes)%nat.
Proof.
  revert lookup acc. induction nodes as [|node rest IH]; intros lookup acc; simpl; [lia|].
  destruct (decide (node ∈ lookup)).
  - specialize (IH lookup acc). lia.
  - specialize (IH ({[node]} ∪ lookup) (acc ++ [node])). rewrite length_app in IH.
    simpl in IH. lia.
Qed.

(** The deduplication keeps exactly the names of its input, once each. *)
Lemma uniqueNodes_spec (nodes : list string) :
  forall (lookup : gset string) (acc : list string),
    (forall x, x ∈ lookup <-> x ∈ acc) -> NoDup acc ->
    NoDup (uniqueNodes lookup nodes acc)
    /\ (forall x, x ∈ uniqueNodes lookup nodes acc <-> x ∈ acc \/ x ∈ nodes).
Proof.
  induction nodes as [|node rest IH]; intros lookup acc Hset Hnd; simpl.
  - split; [exact Hnd|]. intros x. rewrite elem_of_nil. tauto.
  - destruct (decide (node ∈ lookup)) as [Hin|Hnotin].
    + destruct (IH lookup acc Hset Hnd) as [Hnd' Hel]. split; [exact Hnd'|].
      intros x. rewrite Hel, elem_of_cons. apply Hset in Hin.
      split; [tauto|]. intros [?|[->|?]]; tauto.
    + destruct (IH ({[node]} ∪ lookup) (acc ++ [node])) as [Hnd' Hel].
      * intros x. rewrite elem_of_union, elem_of_singleton, elem_of_app,
          list_elem_of_singleton, Hset. tauto.
      * apply NoDup_app. split; [exact Hnd|]. split; [|apply NoDup_singleton].
        intros x Hx Hx'. apply list_elem_of_singleton in Hx'. subst x.
        apply Hnotin. now apply Hset.
      * split; [exact Hnd'|]. intros x.
        rewrite Hel, elem_of_app, list_elem_of_singleton, elem_of_cons. tauto.
Qed.

(** The depth loop returns the least [d] with [f ^ d >= c]. *)
Lemma ceilLog_least (f c : Z) (fuel : nat) :
  2 <= f ->
  forall p d,
    0 <= d -> p = f ^ d -> c <= p * 2 ^ Z.of_nat fuel ->
    (forall d', 0 <= d' < d -> f ^ d' < c) ->
    let r := ceilLog fuel f c p d in
    d <= r /\ c <= f ^ r /\ (forall d', 0 <= d' < r -> f ^ d' < c).
Proof.
  intros Hf. induction fuel as [|fuel IH]; intros p d Hd Hp Hfuel Hbelow.
  - simpl in *. subst p. repeat split; [lia|lia|exact Hbelow].
  - cbn [ceilLog]. cbv zeta. destruct (Z.leb_spec c p) as [Hle|Hgt].
    + subst p. repeat split; [lia|exact Hle|exact Hbelow].
    + assert (Hpos : 0 < p) by (subst p; apply Z.pow_pos_nonneg; lia).
      destruct (IH (p * f) (d + 1)) as (H1 & H2 & H3).
      * lia.
      * subst p. rewrite Z.pow_add_r by lia. now rewrite Z.pow_1_r.
      * rewrite Nat2Z.inj_succ, Z.pow_succ_r in Hfuel by lia.
        assert (0 <= 2 ^ Z.of_nat fuel) by (apply Z.pow_nonneg; lia). nia.
      * intros d' Hd'. destruct (Z.eq_dec d' d) as [->|Hne]; [subst p; lia|].
        apply Hbelow. lia.
      * repeat split; [lia|exact H2|exact H3].
Qed.

Lemma ceilDiv_le (n sz : nat) : (1 <= sz)%nat -> (ceilDiv n sz <= n)%nat.
Proof.
  intros Hsz. unfold ceilDiv. destruct n as [|n].
  - rewrite Nat.div_small by lia. lia.
  - apply Nat.Div0.div_le_upper_bound. nia.
Qed.

Lemma length_mergeUndersized {A : Type} (minSize : Z) (cs : list (list A)) :
  (length (mergeUndersized minSize cs) <= length cs)%nat.
Proof.
  unfold mergeUndersized. cbv zeta.
  destruct (_ && _); [|lia]. rewrite length_imap, length_take. lia.
Qed.

Section Partition.
Context {conv : FloatToInt} {fm : FloatMath}.

Lemma clusterAmountOf_ceilDiv (n : nat) (size : Z) :
  1 <= size ->
  clusterAmountOf (Z.of_nat n) size = Z.of_nat (ceilDiv n (Z.to_nat size)).
Proof.
  intros Hsize. unfold clusterAmountOf, ceilDiv.
  destruct (Z.eqb_spec size 0); [lia|].
  rewrite Nat2Z.inj_div, Nat2Z.inj_sub, Nat2Z.inj_add, Z2Nat.id by lia.
  change (Z.of_nat 1) with 1.
  pose proof (Z.div_mod (- Z.of_nat n) size ltac:(lia)) as H1.
  pose proof (Z.mod_pos_bound (- Z.of_nat n) size ltac:(lia)) as H2.
  pose proof (Z.div_mod (Z.of_nat n + size - 1) size ltac:(lia)) as H3.
  pose proof (Z.mod_pos_bound (Z.of_nat n + size - 1) size ltac:(lia)) as H4.
  nia.
Qed.

(** For at least one cluster, fewer than 2^31 of them, and a fan-out of at
    least 2: the depth [d] gives the tree a leaf for every cluster,
    [fanOut ^ d >= clusterAmount]; it is the least such depth, or one more
    than the least when [clusterAmount] is an exact power [fanOut ^ k] with
    [k >= 2]. *)
Lemma countVirtualNodes_range (clusterAmount fanOut : Z) :
  1 <= clusterAmount < 2 ^ 31 -> 2 <= fanOut ->
  let d := countVirtualNodes clusterAmount fanOut in
  0 <= d /\ clusterAmount <= fanOut ^ d
  /\ ((forall d', 0 <= d' < d -> fanOut ^ d' < clusterAmount)
      \/ (3 <= d /\ clusterAmount = fanOut ^ (d - 1))).
Proof.
  intros Hc Hf. unfold countVirtualNodes.
  destruct (Z.ltb_spec clusterAmount 0); [lia|].
  destruct (Z.ltb_spec fanOut 0); [lia|]. cbn [orb].
  destruct (Z.eqb_spec clusterAmount 0); [lia|].
  destruct (Z.eqb_spec fanOut 0); [lia|].
  destruct (Z.eqb_spec fanOut 1); [lia|].
  destruct (Z.leb_spec (2 ^ 31) clusterAmount); [lia|].
  set (d0 := ceilLog _ _ _ _ _).
  assert (Hd0 : 0 <= d0 /\ clusterAmount <= fanOut ^ d0
                /\ (forall d', 0 <= d' < d0 -> fanOut ^ d' < clusterAmount)).
  { apply ceilLog_least; [exact Hf|lia|reflexivity| |intros; lia].
    rewrite Nat2Z.inj_succ, Z2Nat.id by apply Z.log2_up_nonneg.
    rewrite Z.pow_succ_r by apply Z.log2_up_nonneg.
    destruct (Z.eq_dec clusterAmount 1) as [->|Hne]; [rewrite Z.log2_up_1; lia|].
    pose proof (Z.log2_up_spec clusterAmount ltac:(lia)) as [_ Hup]. lia. }
  destruct Hd0 as (Hnn & Hup & Hleast). cbv zeta.
  destruct (Z.leb_spec 2 d0) as [Htwo|Htwo]; cbn [andb];
    [|split; [exact Hnn|]; split; [exact Hup|]; left; exact Hleast].
  destruct (Z.eqb_spec (fanOut ^ d0) clusterAmount) as [Hpow|Hpow]; cbn [andb];
    [|split; [exact Hnn|]; split; [exact Hup|]; left; exact Hleast].
  destruct (quotient_above fanOut d0);
    [|split; [exact Hnn|]; split; [exact Hup|]; left; exact Hleast].
  split; [lia|]. split.
  - rewrite Z.pow_add_r, Z.pow_1_r by lia. nia.
  - right. replace (d0 + 1 - 1) with d0 by lia. split; [lia|now symmetry].
Qed.

(** Cutting off and spreading the undersized last cluster, on a table of
    [k] clusters built by the current call. *)
Lemma mergeLastCluster_spec (minSize : Z) (clusters : list (list string)) :
  mergeLastCluster minSize clusters (Z.of_nat (length clusters))
  = Returns (mergeUndersized minSize clusters,
             Z.of_nat (length (mergeUndersized minSize clusters))).
Proof.
  unfold mergeLastCluster, mergeUndersized. cbv zeta.
  set (k := length clusters).
  destruct (Z.ltb_spec 1 (Z.of_nat k)) as [Hk|Hk];
    destruct (Nat.ltb_spec 1 k) as [Hk'|Hk']; try lia; [|reflexivity].
  assert (Hlast : is_Some (clusters !! (k - 1)%nat))
    by (apply lookup_lt_is_Some_2; subst k; lia).
  destruct Hlast as [lastCluster Hlast].
  replace (Z.of_nat k - 1) with (Z.of_nat (k - 1)) at 1 by lia.
  rewrite (index_lookup _ _ _ Hlast). cbn [obind].
  rewrite last_lookup. replace (pred (length clusters)) with (k - 1)%nat by (subst k; lia).
  rewrite Hlast. cbn [from_option id andb].
  destruct (Z.of_nat (length lastCluster) <? minSize); [|reflexivity].
  replace (Z.to_nat (Z.of_nat k - 1)) with (k - 1)%nat by lia.
  pose proof (spreadCluster_dealt (k - 1) lastCluster ltac:(lia)
                (take (k - 1) clusters) 0) as Hspread.
  rewrite Nat.Div0.mod_0_l in Hspread.
  rewrite Hspread by (rewrite length_take; subst k; lia).
  cbn [obind]. rewrite length_imap, length_take.
  replace (Z.of_nat ((k - 1) `min` length clusters)) with (Z.of_nat k - 1) by (subst k; lia).
  reflexivity.
Qed.

(** [generateCluster] on an empty table: the deduplicated input is cut
    into as many chunks as the raw input length asks for, the last chunk
    is merged when undersized, and the depth follows the number of
    clusters left. *)
Lemma generateCluster_rebuild (sr : SkeletonRendezvous) (nodes : list string) :
  Clusters sr = [] ->
  1 <= clusterSize (options sr) ->
  let sz := Z.to_nat (clusterSize (options sr)) in
  let newNodes := uniqueNodes ∅ nodes [] in
  let clusters :=
    mergeUndersized (minClusterSize (options sr))
                    (chunks (ceilDiv (length nodes) sz) sz newNodes) in
  generateCluster sr nodes
  = Returns {| options := options sr;
               Clusters := clusters;
               Nodes := Nodes sr ++ newNodes;
               VirtualNodes := countVirtualNodes (Z.of_nat (length clusters))
                                                 (fanOut (options sr)) |}.
Proof.
  intros Hempty Hsize sz newNodes. cbv zeta.
  set (k := ceilDiv (length nodes) sz).
  assert (Hfill : fillClusters (clusterSize (options sr)) (replicate k []) 0 newNodes
                  = Returns (chunks k sz newNodes)).
  { replace (clusterSize (options sr)) with (Z.of_nat sz) by (subst sz; lia).
    pose proof (ceilDiv_capacity (length nodes) sz ltac:(subst sz; lia)) as Hcap.
    pose proof (uniqueNodes_length nodes ∅ []) as Hlen. fold newNodes in Hlen.
    simpl in Hlen. fold k in Hcap. destruct k as [|r].
    - destruct newNodes; [reflexivity|simpl in Hlen; lia].
    - apply (fillClusters_chunks sz newNodes ltac:(subst sz; lia) [] [] r);
        simpl; subst sz; lia. }
  unfold generateCluster. cbv zeta. fold newNodes.
  rewrite Hempty, clusterAmountOf_ceilDiv by exact Hsize.
  fold sz. fold k. rewrite Nat2Z.id. cbn [app].
  rewrite Hfill. cbn [obind].
  pose proof (mergeLastCluster_spec (minClusterSize (options sr)) (chunks k sz newNodes)) as Hmerge.
  rewrite length_chunks in Hmerge. rewrite Hmerge. cbn [obind fst snd].
  reflexivity.
Qed.

(** On an empty cluster table, for an input without
    repetitions and a cluster size of at least 1, [SetNodes] returns with
    the table set to the partition of the input (contiguous chunks of the
    cluster size, ceil(n / size) of them, an undersized last chunk
    discarded and dealt round-robin over the others from chunk 0), and
    appends the input to the registry; on an empty registry the input is
    the full registry. *)
Theorem SetNodes_partition (sr : SkeletonRendezvous) (nodes : list string) :
  Clusters sr = [] ->
  NoDup nodes ->
  1 <= clusterSize (options sr) ->
  exists sr',
    SetNodes sr nodes = Returns sr'
    /\ Nodes sr' = Nodes sr ++ nodes
    /\ Clusters sr'
       = partitionSpec (Z.to_nat (clusterSize (options sr)))
                       (minClusterSize (options sr)) nodes
    /\ (Nodes sr = [] ->
        Clusters sr'
        = partitionSpec (Z.to_nat (clusterSize (options sr)))
                        (minClusterSize (options sr)) (Nodes sr')).
Proof.
  intros Hempty Hnd Hsize.
  pose proof (generateCluster_rebuild sr nodes Hempty Hsize) as Hgen.
  cbv zeta in Hgen.
  rewrite (uniqueNodes_NoDup nodes ∅ [] Hnd) in Hgen
    by (intros x _; apply not_elem_of_empty).
  cbn [app] in Hgen. unfold SetNodes. rewrite Hgen.
  eexists. split; [reflexivity|]. cbn [Nodes Clusters].
  split; [reflexivity|]. split; [reflexivity|].
  intros Hreg. rewrite Hreg. reflexivity.
Qed.

(** After a removal the table is the partition of the registry without the
    removed names, and no removed name is in any cluster, whenever the
    registry holds no name twice and the cluster size is at least 1. *)
Theorem RemoveNodes_partition (sr : SkeletonRendezvous) (removed : list string) :
  NoDup (Nodes sr) ->
  1 <= clusterSize (options sr) ->
  exists sr',
    RemoveNodes sr removed = Returns sr'
    /\ Clusters sr'
       = partitionSpec (Z.to_nat (clusterSize (options sr)))
                       (minClusterSize (options sr))
                       (filter (fun node => node ∉ removed) (Nodes sr))
    /\ forall node c, node ∈ removed -> c ∈ Clusters sr' -> node ∉ c.
Proof.
  intros Hnd Hsize. unfold RemoveNodes. cbv zeta.
  set (kept := filter (fun node => node ∉ removed) (Nodes sr)).
  assert (Hkept : filter (fun node => node ∉ (list_to_set removed : gset string)) (Nodes sr)
                  = kept).
  { apply list_filter_iff. intros x. now rewrite elem_of_list_to_set. }
  rewrite Hkept.
  assert (Hndk : NoDup kept) by (now apply NoDup_filter).
  rewrite generateCluster_rebuild by (cbn [Clusters options]; first [reflexivity|exact Hsize]).
  cbv zeta. cbn [options Clusters].
  rewrite (uniqueNodes_NoDup kept ∅ [] Hndk) by (intros x _; apply not_elem_of_empty).
  cbn [app]. eexists. split; [reflexivity|]. cbn [Clusters]. split; [reflexivity|].
  intros node c Hrem Hc Hin.
  set (sz := Z.to_nat (clusterSize (options sr))) in *.
  assert (Hall : node ∈ concat (mergeUndersized (minClusterSize (options sr))
                                  (chunks (ceilDiv (length kept) sz) sz kept))).
  { apply elem_of_concat. exists c. split; assumption. }
  rewrite concat_mergeUndersized in Hall.
  rewrite concat_chunks in Hall
    by (rewrite Nat.mul_comm; apply ceilDiv_capacity; subst sz; lia).
  apply list_elem_of_filter in Hall as [Hnot _]. contradiction.
Qed.

(** A rebuild from an empty table, with fewer than 2^31 nodes, returns,
    places every name of its input in exactly one cluster, and sets a
    depth with [fanOut ^ depth >= cluster count]: the least such depth, or
    one more when the cluster count is an exact power of the fan-out. *)
Lemma rebuild_sound (sr : SkeletonRendezvous) (nodes : list string) :
  Clusters sr = [] ->
  1 <= clusterSize (options sr) ->
  2 <= fanOut (options sr) ->
  Z.of_nat (length nodes) < 2 ^ 31 ->
  exists sr',
    generateCluster sr nodes = Returns sr'
    /\ NoDup (concat (Clusters sr'))
    /\ (forall node, node ∈ concat (Clusters sr') <-> node ∈ nodes)
    /\ depthFits sr'.
Proof.
  intros Hempty Hsize Hfan Hbound.
  rewrite generateCluster_rebuild by assumption. cbv zeta.
  eexists. split; [reflexivity|]. cbn [Clusters].
  assert (Hperm : concat (mergeUndersized (minClusterSize (options sr))
                   (chunks (ceilDiv (length nodes) (Z.to_nat (clusterSize (options sr))))
                           (Z.to_nat (clusterSize (options sr)))
                           (uniqueNodes ∅ nodes [])))
                  ≡ₚ uniqueNodes ∅ nodes []).
  { rewrite concat_mergeUndersized. rewrite concat_chunks; [reflexivity|].
    pose proof (uniqueNodes_length nodes ∅ []) as Hlen. simpl in Hlen.
    pose proof (ceilDiv_capacity (length nodes) (Z.to_nat (clusterSize (options sr)))
                  ltac:(lia)) as Hcap.
    lia. }
  destruct (uniqueNodes_spec nodes ∅ []) as [Hnd Hel].
  { intros x. rewrite elem_of_empty, elem_of_nil. tauto. }
  { apply NoDup_nil_2. }
  split; [now rewrite Hperm|]. split.
  - intros node. rewrite Hperm, Hel, elem_of_nil. tauto.
  - unfold depthFits. cbn [Clusters VirtualNodes options]. intros Hne.
    apply countVirtualNodes_range; [|exact Hfan].
    pose proof (length_mergeUndersized (minClusterSize (options sr))
                  (chunks (ceilDiv (length nodes) (Z.to_nat (clusterSize (options sr))))
                          (Z.to_nat (clusterSize (options sr)))
                          (uniqueNodes ∅ nodes []))) as Hlen.
    rewrite length_chunks in Hlen.
    pose proof (ceilDiv_le (length nodes) (Z.to_nat (clusterSize (options sr)))
                  ltac:(lia)) as Hle.
    destruct (mergeUndersized _ _); [contradiction|simpl in *; lia].
Qed.

(** [SetNodes] on an empty table (cluster size at least 1, fan-out at
    least 2, fewer than 2^31 nodes) returns, places every name of the
    input in exactly one cluster, and leaves a tree with a leaf for every
    cluster, [fanOut ^ depth >= cluster count]; the depth is the least
    such, or one more than the least when the cluster count is an exact
    power [fanOut ^ k] with [k >= 2], where the rounding of the logarithms
    decides. *)
Theorem SetNodes_sound (sr : SkeletonRendezvous) (nodes : list string) :
  Clusters sr = [] ->
  1 <= clusterSize (options sr) ->
  2 <= fanOut (options sr) ->
  Z.of_nat (length nodes) < 2 ^ 31 ->
  exists sr',
    SetNodes sr nodes = Returns sr'
    /\ NoDup (concat (Clusters sr'))
    /\ (forall node, node ∈ concat (Clusters sr') <-> node ∈ nodes)
    /\ depthFits sr'.
Proof. intros Hempty Hsize Hfan Hbound. now apply rebuild_sound. Qed.

(** [RemoveNodes] in any state (cluster size at least 1, fan-out at least
    2, a registry of fewer than 2^31 entries) returns, places exactly the
    registry names that were not removed, each in exactly one cluster, and
    leaves a tree with a leaf for every cluster,
    [fanOut ^ depth >= cluster count]; the depth is the least such, or one
    more than the least when the cluster count is an exact power
    [fanOut ^ k] with [k >= 2], where the rounding of the logarithms
    decides. *)
Theorem RemoveNodes_sound (sr : SkeletonRendezvous) (removed : list string) :
  1 <= clusterSize (options sr) ->
  2 <= fanOut (options sr) ->
  Z.of_nat (length (Nodes sr)) < 2 ^ 31 ->
  exists sr',
    RemoveNodes sr removed = Returns sr'
    /\ NoDup (concat (Clusters sr'))
    /\ (forall node, node ∈ concat (Clusters sr')
                     <-> node ∈ Nodes sr /\ node ∉ removed)
    /\ depthFits sr'.
Proof.
  intros Hsize Hfan Hbound. unfold RemoveNodes. cbv zeta.
  destruct (rebuild_sound
              {| options := options sr; Clusters := [];
                 Nodes := Nodes sr; VirtualNodes := VirtualNodes sr |}
              (filter (fun node => node ∉ (list_to_set removed : gset string)) (Nodes sr)))
    as (sr' & Hgen & Hnd & Hel & Hdepth); try assumption; [reflexivity| |].
  { pose proof (length_filter (fun node => node ∉ (list_to_set removed : gset string))
                  (Nodes sr)) as Hlen. lia. }
  exists sr'. split; [exact Hgen|]. split; [exact Hnd|]. split; [|exact Hdepth].
  intros node. rewrite Hel, list_elem_of_filter, elem_of_list_to_set. tauto.
Qed.
End Partition.

Lemma SetNodes_partition_witness :
  exists sr',
    SetNodes (conv := amd64) (fm := exactMath) testSkeleton fourNodes = Returns sr'
    /\ Nodes sr' = Nodes testSkeleton ++ fourNodes
    /\ Clusters sr' = partitionSpec 2 2 fourNodes
    /\ (Nodes testSkeleton = [] -> Clusters sr' = partitionSpec 2 2 (Nodes sr')).
Proof.
  apply (SetNodes_partition (conv := amd64) (fm := exactMath) testSkeleton fourNodes).
  - reflexivity.
  - apply (bool_decide_unpack _). vm_compute. exact I.
  - simpl. lia.
Defined.

Section KeepsOldClusters.
Context {fm : FloatMath}.

(** C1: a second [SetNodes] keeps the clusters of the first, pushes the
    new nodes into them and leaves an empty cluster, so the table is
    neither replaced nor the partition of the registry. *)
Theorem SetNodes_keeps_old_clusters :
  exists s1 s2,
    SetNodes (conv := amd64) testSkeleton fourNodes = Returns s1
    /\ SetNodes (conv := amd64) s1 ["jg5"; "jg6"] = Returns s2
    /\ Nodes s2 = ["jg1"; "jg2"; "jg3"; "jg4"; "jg5"; "jg6"]
    /\ Clusters s2 = [["jg1"; "jg2"; "jg5"]; ["jg3"; "jg4"; "jg6"]; []]
    /\ partitionSpec 2 2 (Nodes s2) = [["jg1"; "jg2"]; ["jg3"; "jg4"]; ["jg5"; "jg6"]].
Proof.
  eexists. eexists.
  split; [reflexivity|].
  split; [reflexivity|].
  repeat split; vm_compute; reflexivity.
Qed.
End KeepsOldClusters.

Lemma RemoveNodes_partition_witness :
  exists sr',
    RemoveNodes (conv := amd64) (fm := exactMath) sixSkeleton ["n5"; "n6"] = Returns sr'
    /\ Clusters sr'
       = partitionSpec 2 2 (filter (fun node => node ∉ ["n5"; "n6"]) (Nodes sixSkeleton))
    /\ forall node c, node ∈ ["n5"; "n6"] -> c ∈ Clusters sr' -> node ∉ c.
Proof.
  apply (RemoveNodes_partition (conv := amd64) (fm := exactMath) sixSkeleton ["n5"; "n6"]).
  - apply (bool_decide_unpack _). vm_compute. exact I.
  - simpl. lia.
Defined.

Lemma SetNodes_sound_witness :
  exists sr',
    SetNodes (conv := amd64) (fm := exactMath) testSkeleton ["jg1"; "jg1"; "jg2"; "jg3"; "jg4"] = Returns sr'
    /\ NoDup (concat (Clusters sr'))
    /\ (forall node, node ∈ concat (Clusters sr')
                     <-> node ∈ ["jg1"; "jg1"; "jg2"; "jg3"; "jg4"])
    /\ depthFits sr'.
Proof.
  apply (SetNodes_sound (conv := amd64) (fm := exactMath) testSkeleton
           ["jg1"; "jg1"; "jg2"; "jg3"; "jg4"]).
  - reflexivity.
  - simpl. lia.
  - simpl. lia.
  - simpl. lia.
Defined.

Lemma RemoveNodes_sound_witness :
  exists sr',
    RemoveNodes (conv := amd64) (fm := exactMath) sixSkeleton ["n1"; "n2"] = Returns sr'
    /\ NoDup (concat (Clusters sr'))
    /\ (forall node, node ∈ concat (Clusters sr')
                     <-> node ∈ Nodes sixSkeleton /\ node ∉ ["n1"; "n2"])
    /\ depthFits sr'.
Proof.
  apply (RemoveNodes_sound (conv := amd64) (fm := exactMath) sixSkeleton ["n1"; "n2"]).
  - simpl. lia.
  - simpl. lia.
  - simpl. lia.
Defined.

(** ** Removal and lookup *)

Lemma ceilDiv_tight (n sz : nat) :
  (1 <= sz)%nat -> (1 <= n)%nat ->
  (1 <= ceilDiv n sz)%nat /\ ((ceilDiv n sz - 1) * sz < n)%nat.
Proof.
  intros Hsz Hn. unfold ceilDiv.
  pose proof (Nat.div_mod_eq (n + sz - 1) sz) as Hdm.
  pose proof (Nat.mod_upper_bound (n + sz - 1) sz ltac:(lia)) as Hub.
  assert (1 <= (n + sz - 1) / sz)%nat by (apply Nat.div_le_lower_bound; lia).
  split; [assumption|]. nia.
Qed.

Lemma take_chunks {A : Type} (j k sz : nat) (l : list A) :
  (j <= k)%nat -> take j (chunks k sz l) = chunks j sz l.
Proof.
  revert k l. induction j as [|j IH]; intros k l Hj; [now rewrite take_0|].
  destruct k as [|k]; [lia|]. cbn [chunks take]. f_equal. apply IH. lia.
Qed.

Lemma ceilDiv_above (n sz v : nat) :
  (1 <= sz)%nat -> (v * sz < n)%nat -> (v < ceilDiv n sz)%nat.
Proof.
  intros Hsz Hv. pose proof (ceilDiv_capacity n sz Hsz). nia.
Qed.

Lemma chunks_lookup {A : Type} (k sz i : nat) (l : list A) :
  (i < k)%nat -> chunks k sz l !! i = Some (take sz (drop (i * sz) l)).
Proof.
  revert i l. induction k as [|k IH]; intros i l Hi; [lia|].
  destruct i as [|i]; cbn [chunks]; [reflexivity|].
  change ((take sz l :: chunks k sz (drop sz l)) !! S i)
    with (chunks k sz (drop sz l) !! i).
  rewrite IH by lia. rewrite drop_drop. reflexivity.
Qed.

Lemma concat_chunks_take {A : Type} (j sz : nat) (l : list A) :
  concat (chunks j sz l) = take (j * sz) l.
Proof.
  revert l. induction j as [|j IH]; intros l; cbn [chunks concat]; [now rewrite take_0|].
  rewrite IH. change (S j * sz)%nat with (sz + j * sz)%nat.
  rewrite <- (take_drop sz l) at 3.
  destruct (decide (sz <= length l)%nat) as [Hle|Hgt].
  - rewrite take_app_add' by (rewrite length_take; lia). reflexivity.
  - rewrite (drop_ge l sz) by lia. rewrite take_nil, !app_nil_r.
    rewrite take_take. f_equal. lia.
Qed.

(** Without an undersized last chunk the partition is the plain cut into
    chunks. *)
Lemma wholeChunks_partition {A : Type} (sz : nat) (minSize : Z) (l : list A) :
  (1 <= sz)%nat -> wholeChunks sz minSize (length l) ->
  partitionSpec sz minSize l = chunks (ceilDiv (length l) sz) sz l.
Proof.
  intros Hsz Hw. unfold partitionSpec, mergeUndersized. cbv zeta.
  rewrite length_chunks. set (k := ceilDiv (length l) sz).
  destruct (Nat.ltb_spec 1 k) as [Hk|Hk]; cbn [andb]; [|reflexivity].
  rewrite last_lookup, length_chunks.
  rewrite chunks_lookup by lia. cbn [from_option id].
  rewrite length_take, length_drop.
  assert (Hn : (1 <= length l)%nat).
  { destruct (length l) eqn:Hl; [|lia]. subst k. unfold ceilDiv in Hk.
    rewrite Nat.div_small in Hk; lia. }
  destruct (ceilDiv_tight (length l) sz Hsz Hn) as [_ Htight]. fold k in Htight.
  pose proof (ceilDiv_capacity (length l) sz Hsz) as Hcap. fold k in Hcap.
  replace (pred k) with (k - 1)%nat by lia.
  destruct (Z.ltb_spec (Z.of_nat (sz `min` (length l - (k - 1) * sz))) minSize)
    as [Hshort|_]; [exfalso|reflexivity].
  destruct Hw as [Hone|[Hmin Hmod]]; [lia|].
  apply Nat.Div0.div_exact in Hmod.
  set (q := (length l / sz)%nat) in *.
  assert (Hq : q = k) by nia.
  assert (Hlast : (length l - (k - 1) * sz = sz)%nat) by nia.
  rewrite Hlast, Nat.min_id in Hshort. lia.
Qed.

Lemma filter_all {A : Type} (P : A -> Prop) `{!forall x, Decision (P x)} (l : list A) :
  (forall x, x ∈ l -> P x) -> filter P l = l.
Proof.
  induction l as [|x l IH]; intros Hall; [reflexivity|].
  rewrite filter_cons_True by (apply Hall; left).
  f_equal. apply IH. intros y Hy. apply Hall. now right.
Qed.

(** A filter that keeps the first [m] elements leaves them where they
    are. *)
Lemma take_filter_all {A : Type} (P : A -> Prop) `{!forall x, Decision (P x)}
    (m : nat) (l : list A) :
  (forall x, x ∈ take m l -> P x) -> take m (filter P l) = take m l.
Proof.
  intros Hall. rewrite <- (take_drop m l) at 1.
  rewrite filter_app, (filter_all P (take m l) Hall).
  destruct (decide (m <= length l)%nat) as [Hle|Hgt].
  - rewrite take_app_length' by (rewrite length_take; lia). reflexivity.
  - rewrite (drop_ge l m) by lia. rewrite filter_nil, app_nil_r.
    now rewrite take_take, Nat.min_id.
Qed.

Section Removal.
Context {conv : FloatToInt} {fm : FloatMath}.

Lemma generateCluster_options (sr sr' : SkeletonRendezvous) (nodes : list string) :
  generateCluster sr nodes = Returns sr' -> options sr' = options sr.
Proof.
  unfold generateCluster. cbv zeta.
  destruct (fillClusters _ _ _ _) as [clusters|]; [|discriminate].
  cbn [obind]. destruct (mergeLastCluster _ _ _) as [merged|]; [|discriminate].
  cbn [obind]. intros [= <-]. reflexivity.
Qed.

Lemma branchOf_ext (sr sr' : SkeletonRendezvous) (key : string) :
  options sr' = options sr -> VirtualNodes sr' = VirtualNodes sr ->
  branchOf sr' key = branchOf sr key.
Proof.
  destruct sr, sr'. simpl. intros -> ->. reflexivity.
Qed.

Lemma findHighestRandomWeight_ext (sr sr' : SkeletonRendezvous) (key : string)
    (nodes : list string) :
  options sr' = options sr ->
  findHighestRandomWeight sr' key nodes = findHighestRandomWeight sr key nodes.
Proof.
  destruct sr, sr'. simpl. intros ->. reflexivity.
Qed.

(** A branch whose value is an index of the table selects the cluster at
    that index. *)
Lemma selectClusterNodes_direct (sr : SkeletonRendezvous) (branch : string)
    (v : nat) (c : list string) :
  branchValue sr branch = Some (Z.of_nat v) ->
  Clusters sr !! v = Some c ->
  selectClusterNodes sr branch = Returns (c, false).
Proof.
  intros Hval Hc. pose proof (lookup_lt_Some _ _ _ Hc) as Hlt.
  unfold selectClusterNodes, branchValue in *. cbv zeta.
  destruct (String.length branch =? 1)%nat.
  - rewrite Hval. destruct (Z.ltb_spec (Z.of_nat (length (Clusters sr)) - 1) (Z.of_nat v));
      [lia|].
    now rewrite (index_lookup _ _ _ Hc).
  - injection Hval as ->.
    destruct (Z.ltb_spec (Z.of_nat (length (Clusters sr)) - 1) (Z.of_nat v)); [lia|].
    now rewrite (index_lookup _ _ _ Hc).
Qed.

(** C8 (amended): minimal disruption under positional partitioning.  The
    table is the partition of a duplicate-free registry, and neither it
    nor the partition of the remaining nodes has an undersized last chunk
    to merge.  The branch of the key stands for the index [v] of a cluster
    of the table.  If neither that cluster nor any cluster before it
    contains a removed node, and the number of clusters that remain calls
    for the depth the tree has, then [RemoveNodes] returns and [FindNode]
    returns for the key what it returned before. *)
Theorem FindNode_after_removal (sr : SkeletonRendezvous) (removed : list string)
    (key : string) (v : nat) :
  let size := Z.to_nat (clusterSize (options sr)) in
  let minSize := minClusterSize (options sr) in
  let kept := filter (fun node => node ∉ removed) (Nodes sr) in
  1 <= clusterSize (options sr) ->
  NoDup (Nodes sr) ->
  Clusters sr = partitionSpec size minSize (Nodes sr) ->
  wholeChunks size minSize (length (Nodes sr)) ->
  wholeChunks size minSize (length kept) ->
  branchValue sr (branchOf sr key) = Some (Z.of_nat v) ->
  (v < length (Clusters sr))%nat ->
  (forall i c node, (i <= v)%nat -> Clusters sr !! i = Some c -> node ∈ c ->
                    node ∉ removed) ->
  countVirtualNodes (Z.of_nat (ceilDiv (length kept) size)) (fanOut (options sr))
  = VirtualNodes sr ->
  exists sr',
    RemoveNodes sr removed = Returns sr' /\ FindNode sr' key = FindNode sr key.
Proof.
  intros size minSize kept Hsize Hnd Htable Hwhole Hwhole' Hval Hv Hspare Hdepth.
  assert (Hsz : (1 <= size)%nat) by (subst size; lia).
  rewrite (wholeChunks_partition size minSize (Nodes sr) Hsz Hwhole) in Htable.
  set (k := ceilDiv (length (Nodes sr)) size) in *.
  set (k' := ceilDiv (length kept) size) in *.
  assert (Hvk : (v < k)%nat) by (rewrite Htable, length_chunks in Hv; exact Hv).
  (* the nodes up to the end of cluster [v] stay where they are *)
  assert (Htake : take (S v * size) kept = take (S v * size) (Nodes sr)).
  { apply take_filter_all. intros node Hnode.
    rewrite <- concat_chunks_take in Hnode.
    rewrite <- (take_chunks (S v) k size (Nodes sr)) in Hnode by lia.
    rewrite <- Htable in Hnode.
    apply elem_of_concat in Hnode as (c & Hc & Hin).
    apply list_elem_of_lookup in Hc as [i Hi].
    apply lookup_take_Some in Hi as [Hi Hlt].
    apply (Hspare i c node); [lia|exact Hi|exact Hin]. }
  assert (Hchunk : take size (drop (v * size) kept)
                   = take size (drop (v * size) (Nodes sr))).
  { rewrite !take_drop_commute.
    replace (v * size + size)%nat with (S v * size)%nat by lia.
    now rewrite Htake. }
  assert (Hvk' : (v < k')%nat).
  { apply ceilDiv_above; [exact Hsz|].
    destruct (ceilDiv_tight (length (Nodes sr)) size Hsz) as [_ Htight].
    { destruct (Nodes sr); [subst k; unfold ceilDiv in Hvk; simpl in Hvk;
                            rewrite Nat.div_small in Hvk; lia|simpl; lia]. }
    fold k in Htight.
    assert (Hlen : length (take (S v * size) kept)
                   = length (take (S v * size) (Nodes sr))) by now rewrite Htake.
    rewrite !length_take in Hlen. nia. }
  (* the rebuilt state *)
  unfold RemoveNodes. cbv zeta.
  assert (Hkept : filter (fun node => node ∉ (list_to_set removed : gset string)) (Nodes sr)
                  = kept).
  { apply list_filter_iff. intros x. now rewrite elem_of_list_to_set. }
  rewrite Hkept.
  rewrite generateCluster_rebuild by (cbn [Clusters options]; first [reflexivity|exact Hsize]).
  cbv zeta. cbn [options Clusters Nodes].
  rewrite (uniqueNodes_NoDup kept ∅ []) by
    (first [now apply NoDup_filter|intros x _; apply not_elem_of_empty]).
  cbn [app]. fold size minSize.
  change (mergeUndersized minSize (chunks (ceilDiv (length kept) size) size kept))
    with (partitionSpec size minSize kept).
  rewrite (wholeChunks_partition size minSize kept Hsz Hwhole').
  fold k'. rewrite length_chunks, Hdepth.
  eexists. split; [reflexivity|].
  (* both lookups select cluster [v], with the same members *)
  set (c := take size (drop (v * size) (Nodes sr))).
  assert (Hold : Clusters sr !! v = Some c)
    by (rewrite Htable; now apply chunks_lookup).
  unfold FindNode.
  rewrite (branchOf_ext sr _ key) by reflexivity.
  rewrite (selectClusterNodes_direct sr _ v c Hval Hold).
  rewrite (selectClusterNodes_direct _ _ v c); [reflexivity|exact Hval|].
  cbn [Clusters]. rewrite chunks_lookup by exact Hvk'. now rewrite Hchunk.
Qed.
End Removal.

Lemma FindNode_after_removal_witness :
  exists sr',
    RemoveNodes (conv := amd64) (fm := exactMath) sixSkeleton ["n5"; "n6"] = Returns sr'
    /\ FindNode (fm := exactMath) sr' "apple" = FindNode (fm := exactMath) sixSkeleton "apple".
Proof.
  apply (FindNode_after_removal (conv := amd64) (fm := exactMath)
           sixSkeleton ["n5"; "n6"] "apple" 1).
  - simpl. lia.
  - apply (bool_decide_unpack _). vm_compute. exact I.
  - vm_compute. reflexivity.
  - right. split; [simpl; lia|reflexivity].
  - right. split; [simpl; lia|vm_compute; reflexivity].
  - vm_compute. reflexivity.
  - simpl. lia.
  - intros i c node Hi Hc Hnode Hrem.
    destruct i as [|[|i]]; [| |lia]; injection Hc as <-;
      repeat (apply elem_of_cons in Hnode as [->|Hnode];
              [repeat (apply elem_of_cons in Hrem as [Hrem|Hrem]; [discriminate Hrem|]);
               now apply elem_of_nil in Hrem|]);
      now apply elem_of_nil in Hnode.
  - vm_compute. reflexivity.
Defined.

(** C8, as stated, fails: the key selects the cluster of n3 and n4, the
    removal of n1 and n2 touches neither, and yet the key moves to n5,
    because the repartition shifts every cluster by one place. *)
Lemma FindNode_moves_without_cause :
  exists s1 s2,
    SetNodes (conv := amd64) (fm := exactMath) testSkeleton sixNodes = Returns s1
    /\ selectClusterNodes (fm := exactMath) s1 (branchOf s1 "apple")
       = Returns (["n3"; "n4"], false)
    /\ FindNode (fm := exactMath) s1 "apple" = Returns "n4"
    /\ RemoveNodes (conv := amd64) (fm := exactMath) s1 ["n1"; "n2"] = Returns s2
    /\ Clusters s2 = [["n3"; "n4"]; ["n5"; "n6"]]
    /\ FindNode (fm := exactMath) s2 "apple" = Returns "n5".
Proof.
  eexists. eexists.
  split; [reflexivity|].
  split; [vm_compute; reflexivity|].
  split; [vm_compute; reflexivity|].
  split; [reflexivity|].
  split; vm_compute; reflexivity.
Qed.

Section FurtherMoves.
Context {fm : FloatMath}.

(** The other conditions are needed as well.  In both runs no removed node
    is in the selected cluster or in a cluster before it.  In the first the
    removal takes the tree from depth 2 to depth 1, the branch of the key
    shrinks from "01" to "0" and the key moves from cluster 1 to cluster 0.
    In the second the depth stays 2, but the branch "21" stands for 7, which
    is no index of the table, and is folded by the number of clusters: to
    cluster 0 of six before the removal, to cluster 1 of five after it. *)
Lemma FindNode_moves_with_depth_or_fold :
  (exists s1 s2,
      SetNodes (conv := amd64) testSkeleton eightNodes = Returns s1
      /\ VirtualNodes s1 = 2
      /\ branchOf s1 "hello" = "01"
      /\ FindNode s1 "hello" = Returns "n4"
      /\ RemoveNodes (conv := amd64) s1 ["n7"; "n8"] = Returns s2
      /\ VirtualNodes s2 = 1
      /\ FindNode s2 "hello" = Returns "n1")
  /\ (exists s1 s2,
         SetNodes (conv := amd64) testSkeleton twelveNodes = Returns s1
         /\ VirtualNodes s1 = 2
         /\ branchOf s1 "a" = "21"
         /\ FindNode s1 "a" = Returns "n1"
         /\ RemoveNodes (conv := amd64) s1 ["n11"; "n12"] = Returns s2
         /\ VirtualNodes s2 = 2
         /\ FindNode s2 "a" = Returns "n4").
Proof.
  split.
  - eexists. eexists. split; [reflexivity|].
    do 3 (split; [vm_compute; reflexivity|]).
    split; [reflexivity|]. split; vm_compute; reflexivity.
  - eexists. eexists. split; [reflexivity|].
    do 3 (split; [vm_compute; reflexivity|]).
    split; [reflexivity|]. split; vm_compute; reflexivity.
Qed.
End FurtherMoves.

(** ** Where the code departs from its description *)

Section Departures.
Context {fm : FloatMath}.

(** C3: on the test instance with eight nodes (four clusters, depth 2) the
    key "apple" has branch "11", index 4; the fold [4 - 4 - 1] is -1 and
    the lookup panics. *)
Theorem selectClusterNodes_fold_out_of_range :
  exists s,
    SetNodes (conv := amd64) testSkeleton eightNodes = Returns s
    /\ Clusters s = [["n1"; "n2"]; ["n3"; "n4"]; ["n5"; "n6"]; ["n7"; "n8"]]
    /\ VirtualNodes s = 2
    /\ branchOf s "apple" = "11"
    /\ selectClusterNodes s (branchOf s "apple") = Panics (IndexOutOfRange (-1) 4)
    /\ FindNode s "apple" = Panics (IndexOutOfRange (-1) 4).
Proof.
  eexists. split; [reflexivity|].
  repeat split; vm_compute; reflexivity.
Qed.

(** C5: the scenario of the package's test.  The removal leaves one
    cluster, but the removed names stay in the registry, which also gains
    the survivors a second time; a further removal of nothing brings the
    removed nodes back into the table. *)
Theorem RemoveNodes_keeps_removed_in_registry :
  exists s1 s2 s3,
    SetNodes (conv := amd64) testSkeleton fourNodes = Returns s1
    /\ Clusters s1 = [["jg1"; "jg2"]; ["jg3"; "jg4"]]
    /\ RemoveNodes (conv := amd64) s1 ["jg2"; "jg3"] = Returns s2
    /\ Clusters s2 = [["jg1"; "jg4"]]
    /\ Nodes s2 = ["jg1"; "jg2"; "jg3"; "jg4"; "jg1"; "jg4"]
    /\ RemoveNodes (conv := amd64) s2 [] = Returns s3
    /\ Clusters s3 = [["jg1"; "jg2"]; ["jg3"; "jg4"]].
Proof.
  eexists. eexists. eexists.
  split; [reflexivity|].
  split; [vm_compute; reflexivity|].
  split; [reflexivity|].
  split; [vm_compute; reflexivity|].
  split; [vm_compute; reflexivity|].
  split; [reflexivity|].
  vm_compute; reflexivity.
Qed.

(** C6: after two [SetNodes] calls of six nodes each the table has five
    clusters while the depth, computed from the clusters of the second call
    alone, is 1: 3 ^ 1 < 5. *)
Theorem depth_below_cluster_count :
  exists s1 s2,
    SetNodes (conv := amd64) testSkeleton sixNodes = Returns s1
    /\ SetNodes (conv := amd64) s1 ["n7"; "n8"; "n9"; "n10"; "n11"; "n12"] = Returns s2
    /\ length (Clusters s2) = 5%nat
    /\ VirtualNodes s2 = 1
    /\ fanOut (options s2) ^ VirtualNodes s2 < Z.of_nat (length (Clusters s2)).
Proof.
  eexists. eexists.
  split; [reflexivity|].
  split; [reflexivity|].
  repeat split; vm_compute; reflexivity.
Qed.

(** C7: [SetNodes] with the same nodes twice stores every name twice. *)
Theorem registry_with_duplicates :
  exists s1 s2,
    SetNodes (conv := amd64) testSkeleton fourNodes = Returns s1
    /\ SetNodes (conv := amd64) s1 fourNodes = Returns s2
    /\ Nodes s2 = fourNodes ++ fourNodes
    /\ ~ NoDup (Nodes s2).
Proof.
  eexists. eexists.
  split; [reflexivity|].
  split; [reflexivity|].
  split; [vm_compute; reflexivity|].
  vm_compute. intros Hnd. apply NoDup_cons in Hnd as [Hnotin _]. apply Hnotin.
  do 3 right. left.
Qed.

(** C9: with an empty cluster table and no level to walk (a new instance,
    or any instance whose depth is not positive), [FindNode] panics for
    every key: the empty branch is resolved to index [0 - 0 - 1]. *)
Theorem FindNode_empty_topology_panics (sr : SkeletonRendezvous) (key : string) :
  Clusters sr = [] ->
  VirtualNodes sr <= 0 ->
  FindNode sr key = Panics (IndexOutOfRange (-1) 0).
Proof.
  intros Hempty Hdepth. unfold FindNode, branchOf.
  replace (Z.to_nat (VirtualNodes sr)) with 0%nat by lia.
  unfold selectClusterNodes. rewrite Hempty. reflexivity.
Qed.

End Departures.

Lemma FindNode_empty_topology_panics_witness :
  FindNode (fm := exactMath) defaultSkeleton "apple" = Panics (IndexOutOfRange (-1) 0).
Proof.
  apply (FindNode_empty_topology_panics (fm := exactMath) defaultSkeleton "apple").
  - reflexivity.
  - simpl. lia.
Defined.

(** * Further properties of the code *)

(** ** The running maximum *)

Section ScanMore.
Context {A B : Type} (f : A -> Z) (g : A -> B).

(** The scan ends on its start value or on an element of the list. *)
Lemma scan_result (l : list A) (st : Z * B) :
  fold_left (fun st x => if st.1 <? f x then (f x, g x) else st) l st = st
  \/ exists x, x ∈ l
       /\ fold_left (fun st x => if st.1 <? f x then (f x, g x) else st) l st = (f x, g x).
Proof.
  revert st. induction l as [|x l IH]; intros st; [now left|].
  simpl. destruct (Z.ltb_spec st.1 (f x)).
  - right. destruct (IH (f x, g x)) as [Heq|(y & Hy & Heq)].
    + exists x. split; [left|exact Heq].
    + exists y. split; [now right|exact Heq].
  - destruct (IH st) as [Heq|(y & Hy & Heq)]; [now left|].
    right. exists y. split; [now right|exact Heq].
Qed.

Lemma scan_below (l : list A) (st : Z * B) (b : Z) :
  Forall (fun y => f y < b) l -> st.1 < b ->
  (fold_left (fun st x => if st.1 <? f x then (f x, g x) else st) l st).1 < b.
Proof.
  revert st. induction l as [|x l IH]; intros st Hall Hst; [exact Hst|].
  apply Forall_cons in Hall as [Hx Hl]. simpl.
  destruct (Z.ltb_spec st.1 (f x)); apply IH; simpl; assumption.
Qed.

(** An element that beats everything before it and is not beaten after it
    is where the scan ends. *)
Lemma scan_at (pre suf : list A) (x : A) (st : Z * B) :
  Forall (fun y => f y < f x) pre -> Forall (fun y => f y <= f x) suf ->
  st.1 < f x ->
  fold_left (fun st x => if st.1 <? f x then (f x, g x) else st) (pre ++ x :: suf) st
  = (f x, g x).
Proof.
  intros Hpre Hsuf Hst. rewrite fold_left_app. simpl.
  pose proof (scan_below pre st (f x) Hpre Hst) as Hb.
  destruct (Z.ltb_spec
    (fold_left (fun st x => if st.1 <? f x then (f x, g x) else st) pre st).1 (f x));
    [|lia].
  now apply scan_none.
Qed.
End ScanMore.

(** ** Highest random weight inside a cluster *)

Lemma Forall_filter_keep {A : Type} (P Q : A -> Prop) `{!forall x, Decision (Q x)}
    (l : list A) :
  Forall P l -> Forall P (filter Q l).
Proof.
  rewrite !Forall_forall. intros Hall x Hx. apply list_elem_of_filter in Hx as [_ Hx]. auto.
Qed.

Lemma hrw_filter_stable (sr : SkeletonRendezvous)
    (key : string) (nodes removed : list string) :
  Exists (fun n => 0 < hash sr n key) nodes ->
  findHighestRandomWeight sr key nodes ∉ removed ->
  findHighestRandomWeight sr key nodes ∈ nodes
  /\ findHighestRandomWeight sr key (filter (fun n => n ∉ removed) nodes)
     = findHighestRandomWeight sr key nodes.
Proof.
  intros Hex.
  destruct (scan_some (fun n => hash sr n key) (fun n => n) nodes (0, "") Hex)
    as (pre & x & suf & -> & Hres & Hpos & Hpre & Hsuf).
  unfold findHighestRandomWeight at 1 2 4. rewrite Hres. cbn [snd]. intros Hx.
  split; [apply elem_of_app; right; left|].
  rewrite filter_app, filter_cons_True by exact Hx.
  unfold findHighestRandomWeight.
  rewrite (scan_at (fun n => hash sr n key) (fun n => n)); [reflexivity| | |exact Hpos].
  - now apply Forall_filter_keep.
  - now apply Forall_filter_keep.
Qed.

(** Removing nodes other than the winner does not change the winner. *)
Theorem findHighestRandomWeight_removal_stable (sr : SkeletonRendezvous)
    (key : string) (nodes removed : list string) :
  Exists (fun n => 0 < hash sr n key) nodes ->
  findHighestRandomWeight sr key nodes ∉ removed ->
  findHighestRandomWeight sr key (filter (fun n => n ∉ removed) nodes)
  = findHighestRandomWeight sr key nodes.
Proof. intros Hex Hx. now apply hrw_filter_stable. Qed.

Lemma findHighestRandomWeight_removal_stable_witness :
  findHighestRandomWeight testSkeleton "apple"
    (filter (fun n => n ∉ ["n1"; "n3"]) ["n1"; "n2"; "n3"; "n4"])
  = findHighestRandomWeight testSkeleton "apple" ["n1"; "n2"; "n3"; "n4"].
Proof.
  apply (findHighestRandomWeight_removal_stable testSkeleton "apple"
           ["n1"; "n2"; "n3"; "n4"] ["n1"; "n3"]).
  - apply Exists_cons_hd. vm_compute. reflexivity.
  - replace (findHighestRandomWeight testSkeleton "apple" ["n1"; "n2"; "n3"; "n4"])
      with "n4" by (vm_compute; reflexivity).
    intros Hin. repeat (apply elem_of_cons in Hin as [Hin|Hin]; [discriminate Hin|]).
    now apply elem_of_nil in Hin.
Defined.

(** ** Lookups *)

Lemma index_in_range {A : Type} (l : list A) (i : Z) :
  0 <= i < Z.of_nat (length l) ->
  exists x, index l i = Returns x /\ l !! Z.to_nat i = Some x.
Proof.
  intros Hi. destruct (lookup_lt_is_Some_2 l (Z.to_nat i) ltac:(lia)) as [x Hx].
  exists x. split; [|exact Hx]. unfold index.
  destruct (Z.ltb_spec i 0); [lia|]. now rewrite Hx.
Qed.

Lemma index_out_of_range {A : Type} (l : list A) (i : Z) :
  i < 0 \/ Z.of_nat (length l) <= i ->
  index l i = Panics (IndexOutOfRange i (length l)).
Proof.
  intros Hi. unfold index. destruct (Z.ltb_spec i 0); [reflexivity|].
  rewrite lookup_ge_None_2 by lia. reflexivity.
Qed.

Lemma index_elem {A : Type} (l : list A) (i : Z) (x : A) :
  index l i = Returns x -> x ∈ l.
Proof.
  unfold index. destruct (i <? 0); [discriminate|].
  destruct (l !! Z.to_nat i) as [y|] eqn:Hy; [|discriminate].
  intros [= <-]. apply list_elem_of_lookup. eauto.
Qed.

Section Members.
Context {fm : FloatMath}.

(** What [selectClusterNodes] returns without an error is a cluster of the
    table; with an error it is the empty list. *)
Lemma selectClusterNodes_elem (sr : SkeletonRendezvous) (branch : string)
    (c : list string) (err : bool) :
  selectClusterNodes sr branch = Returns (c, err) ->
  if err then c = [] else c ∈ Clusters sr.
Proof.
  unfold selectClusterNodes. cbv zeta.
  destruct (String.length branch =? 1)%nat.
  - destruct (Atoi branch) as [b|]; [|now intros [= <- <-]].
    destruct (_ <? b);
      (destruct (index (Clusters sr) _) as [c'|] eqn:Hc; [|discriminate]);
      cbn [obind]; intros [= <- <-]; eapply index_elem; exact Hc.
  - destruct (_ <? _);
      (destruct (index (Clusters sr) _) as [c'|] eqn:Hc; [|discriminate]);
      cbn [obind]; intros [= <- <-]; eapply index_elem; exact Hc.
Qed.

(** [FindNode] never invents a name: what it returns is the empty
    placeholder or a member of a cluster of the table. *)
Theorem FindNode_returns_member (sr : SkeletonRendezvous) (key node : string) :
  FindNode sr key = Returns node ->
  node = "" \/ exists c, c ∈ Clusters sr /\ node ∈ c.
Proof.
  unfold FindNode.
  destruct (selectClusterNodes sr (branchOf sr key)) as [[c err]|] eqn:Hsel; [|discriminate].
  cbn [obind fst snd]. apply selectClusterNodes_elem in Hsel.
  destruct err; intros [= <-]; [now left|].
  unfold findHighestRandomWeight.
  destruct (scan_result (fun n => hash sr n key) (fun n => n) c (0, ""))
    as [Heq|(x & Hx & Heq)]; rewrite Heq; cbn [snd]; [now left|].
  right. exists c. split; assumption.
Qed.
End Members.

Lemma FindNode_returns_member_witness :
  "n4" = "" \/ exists c, c ∈ Clusters sixSkeleton /\ "n4" ∈ c.
Proof.
  apply (FindNode_returns_member (fm := exactMath) sixSkeleton "apple" "n4").
  vm_compute. reflexivity.
Defined.

Section Shallow.
Context {fm : FloatMath}.

(** Without a level to walk the branch is empty and every key is resolved
    inside cluster 0. *)
Lemma FindNode_depth_zero (sr : SkeletonRendezvous) (key : string)
    (c : list string) (cs : list (list string)) :
  VirtualNodes sr <= 0 -> Clusters sr = c :: cs ->
  FindNode sr key = Returns (findHighestRandomWeight sr key c).
Proof.
  intros Hdepth Hcl. unfold FindNode, branchOf.
  replace (Z.to_nat (VirtualNodes sr)) with 0%nat by lia.
  unfold selectClusterNodes. rewrite Hcl. cbn [fold_left seq String.length Nat.eqb].
  cbv zeta. cbn [list_ascii_of_string runes branchIndex length].
  destruct (Z.ltb_spec (Z.of_nat (S (length cs)) - 1) 0); [lia|]. reflexivity.
Qed.

Lemma Atoi_Itoa_digit (d : nat) :
  (d < 10)%nat ->
  exists ch, Itoa (Z.of_nat d) = String ch EmptyString
             /\ Atoi (String ch EmptyString) = Some (Z.of_nat d).
Proof.
  intros Hd.
  do 10 (destruct d as [|d]; [eexists; split; reflexivity|]). lia.
Qed.

Lemma targetBranchAt_cases (sr : SkeletonRendezvous) (key : string) (i : Z) :
  targetBranchAt sr key i = ""
  \/ exists j, Z.of_nat j < fanOut (options sr)
               /\ targetBranchAt sr key i = Itoa (Z.of_nat j).
Proof.
  unfold targetBranchAt.
  destruct (scan_result (fun j => hash sr (Itoa i +:+ Itoa (Z.of_nat j)) key)
              (fun j => Itoa (Z.of_nat j))
              (seq 0 (Z.to_nat (fanOut (options sr)))) (0, ""))
    as [Heq|(j & Hj & Heq)]; rewrite Heq; cbn [snd]; [now left|].
  right. exists j. split; [|reflexivity]. apply elem_of_seq in Hj. lia.
Qed.

(** With at most one level, a non-empty table and a fan-out of at most 10
    that exceeds the number of clusters by at most one, [FindNode] returns
    for every key: the single digit is in range or is folded by one. *)
Theorem FindNode_shallow_returns (sr : SkeletonRendezvous) (key : string) :
  VirtualNodes sr <= 1 ->
  Clusters sr <> [] ->
  fanOut (options sr) <= 10 ->
  fanOut (options sr) <= Z.of_nat (length (Clusters sr)) + 1 ->
  exists node, FindNode sr key = Returns node.
Proof.
  intros Hdepth Hne Hten Hfan.
  destruct (Clusters sr) as [|c0 cs] eqn:Hcl; [contradiction|].
  destruct (Z.le_gt_cases (VirtualNodes sr) 0) as [Hzero|Hone].
  { eexists. eapply FindNode_depth_zero; eassumption. }
  assert (Hbranch : branchOf sr key = targetBranchAt sr key 0).
  { unfold branchOf. replace (Z.to_nat (VirtualNodes sr)) with 1%nat by lia. reflexivity. }
  unfold FindNode. rewrite Hbranch.
  destruct (targetBranchAt_cases sr key 0) as [->|(j & Hj & ->)].
  - unfold selectClusterNodes. rewrite Hcl.
    cbn [String.length Nat.eqb]. cbv zeta.
    cbn [list_ascii_of_string runes branchIndex length].
    destruct (Z.ltb_spec (Z.of_nat (S (length cs)) - 1) 0); [lia|].
    cbn [index obind]. eexists. reflexivity.
  - destruct (Atoi_Itoa_digit j ltac:(lia)) as (ch & -> & Hatoi).
    unfold selectClusterNodes. rewrite Hcl.
    cbn [String.length Nat.eqb]. rewrite Hatoi. cbv zeta.
    destruct (Z.ltb_spec (Z.of_nat (length (c0 :: cs)) - 1) (Z.of_nat j)).
    + destruct (index_in_range (c0 :: cs) (Z.of_nat j - 1)) as (c & -> & _).
      { cbn [length] in *. lia. }
      cbn [obind fst snd]. eexists. reflexivity.
    + destruct (index_in_range (c0 :: cs) (Z.of_nat j)) as (c & -> & _); [lia|].
      cbn [obind fst snd]. eexists. reflexivity.
Qed.
End Shallow.

Lemma FindNode_shallow_returns_witness :
  exists node, FindNode (fm := exactMath) sixSkeleton "apple" = Returns node.
Proof.
  apply (FindNode_shallow_returns (fm := exactMath) sixSkeleton "apple").
  - simpl. lia.
  - discriminate.
  - simpl. lia.
  - simpl. lia.
Defined.

(** ** Reading a branch of several digits *)

Lemma positional_from (f : Z) (ds : list nat) (acc : Z) :
  fold_left (fun acc d => acc * f + Z.of_nat d) ds acc
  = acc * f ^ Z.of_nat (length ds) + positional f ds.
Proof.
  unfold positional. revert acc. induction ds as [|d ds IH]; intros acc.
  - simpl. lia.
  - cbn [fold_left length]. rewrite IH, (IH (0 * f + Z.of_nat d)).
    rewrite Nat2Z.inj_succ, Z.pow_succ_r by lia. ring.
Qed.

Lemma positional_cons (f : Z) (d : nat) (ds : list nat) :
  positional f (d :: ds)
  = Z.of_nat d * f ^ Z.of_nat (length ds) + positional f ds.
Proof.
  unfold positional at 1. cbn [fold_left]. rewrite positional_from. ring.
Qed.

Lemma positional_nonneg (f : Z) (ds : list nat) : 0 <= f -> 0 <= positional f ds.
Proof.
  intros Hf. induction ds as [|d ds IH]; [unfold positional; simpl; lia|].
  rewrite positional_cons.
  assert (0 <= f ^ Z.of_nat (length ds)) by (apply Z.pow_nonneg; exact Hf). nia.
Qed.

Lemma length_list_ascii_of_string (s : string) :
  length (list_ascii_of_string s) = String.length s.
Proof. induction s as [|c s IH]; simpl; [reflexivity|]. now rewrite IH. Qed.

Lemma wrap_small (z : Z) : - 2 ^ 63 <= z < 2 ^ 63 -> wrap z = z.
Proof. intros Hz. unfold wrap. rewrite Z.mod_small; lia. Qed.

Lemma between_above (lo hi : Z) (c : ascii) :
  byteOf c < lo -> between lo hi c = false.
Proof.
  intros Hc. unfold between. destruct (Z.leb_spec lo (byteOf c)); [lia|reflexivity].
Qed.

(** A byte below 80 is a rune of its own. *)
Lemma runeLen_ascii (b0 : ascii) (rest : list ascii) :
  byteOf b0 < 128 -> runeLen (b0 :: rest) = 1%nat.
Proof.
  intros Hb. unfold runeLen, three, four.
  rewrite !(between_above _ _ b0) by lia.
  destruct rest as [|b1 [|b2 [|b3 rest]]]; reflexivity.
Qed.

Lemma Itoa_digit_char (d : nat) :
  (d < 10)%nat ->
  exists ch, Itoa (Z.of_nat d) = String ch EmptyString
             /\ Atoi (String ch EmptyString) = Some (Z.of_nat d)
             /\ byteOf ch < 128.
Proof.
  intros Hd.
  do 10 (destruct d as [|d];
         [eexists; split; [reflexivity|]; split; [reflexivity|]; vm_compute; reflexivity|]).
  lia.
Qed.

(** The runes of a numeral are its digits. *)
Lemma runes_numeral (ds : list nat) :
  Forall (fun d => (d < 10)%nat) ds ->
  forall fuel, (length ds <= fuel)%nat ->
    runes fuel (list_ascii_of_string (numeral ds)) = map (fun d => Itoa (Z.of_nat d)) ds.
Proof.
  induction 1 as [|d ds Hd Hds IH]; intros fuel Hfuel.
  - destruct fuel; reflexivity.
  - destruct fuel as [|fuel]; [simpl in Hfuel; lia|].
    destruct (Itoa_digit_char d Hd) as (ch & Hch & _ & Hlow).
    cbn [numeral fold_right map]. rewrite Hch.
    change (String ch EmptyString +:+ fold_right (fun d s => Itoa (Z.of_nat d) +:+ s) "" ds)
      with (String ch (numeral ds)).
    cbn [list_ascii_of_string runes]. cbv zeta.
    rewrite runeLen_ascii by exact Hlow.
    destruct (Z.leb_spec 128 (byteOf ch)); [lia|].
    cbn [Nat.eqb andb take drop string_of_list_ascii].
    f_equal. apply IH. simpl in Hfuel. lia.
Qed.

Section Numeral.
Context {fm : FloatMath}.

(** The loop over the digits, with its powers of the fan-out, computes the
    positional value of the numeral, as long as the powers stay below 2^53
    and the sum within [int]. *)
Lemma branchIndex_numeral (f : Z) (ds : list nat) :
  0 <= f ->
  Forall (fun d => (d < 10)%nat) ds ->
  forall acc,
    (forall k, 0 <= k < Z.of_nat (length ds) -> f ^ k < 2 ^ 53) ->
    0 <= acc -> acc + positional f ds < 2 ^ 63 ->
    branchIndex f (map (fun d => Itoa (Z.of_nat d)) ds) (Z.of_nat (length ds) - 1) acc
    = acc + positional f ds.
Proof.
  intros Hf. induction 1 as [|d ds Hd Hds IH]; intros acc Hpow Hacc Hsum.
  - unfold positional. simpl. lia.
  - destruct (Itoa_digit_char d Hd) as (ch & Hch & Hatoi & _).
    cbn [map branchIndex length]. rewrite Hch, Hatoi. cbn [from_option id].
    rewrite positional_cons in Hsum.
    replace (Z.of_nat (S (length ds)) - 1) with (Z.of_nat (length ds)) by lia.
    pose proof (positional_nonneg f ds Hf) as Hrest.
    assert (Hp : 0 <= f ^ Z.of_nat (length ds) < 2 ^ 53).
    { split; [apply Z.pow_nonneg; exact Hf|]. apply Hpow. simpl length. lia. }
    unfold intPow.
    destruct (Z.leb_spec 0 (Z.of_nat (length ds))); [|lia].
    destruct (Z.ltb_spec (Z.abs (f ^ Z.of_nat (length ds))) (2 ^ 53)); [|lia].
    cbn [andb].
    rewrite wrap_small by nia.
    rewrite IH; [rewrite positional_cons; ring| |nia|nia].
    intros k Hk. apply Hpow. simpl length. lia.
Qed.

(** A numeral of no digit or of several digits is read as its value [v] in
    base fan-out, as long as the powers of the fan-out that the loop takes
    stay below 2^53 and [v] is within [int].  On a table of [n] clusters
    the lookup returns cluster [v] when [v < n] and cluster [v - n - 1]
    when [n < v <= 2 n]; it panics when [v = n] and when [v > 2 n]. *)
Theorem selectClusterNodes_numeral (sr : SkeletonRendezvous) (ds : list nat) :
  Forall (fun d => (d < 10)%nat) ds ->
  length ds <> 1%nat ->
  0 <= fanOut (options sr) ->
  fanOut (options sr) ^ (Z.of_nat (length ds) - 1) < 2 ^ 53 ->
  positional (fanOut (options sr)) ds < 2 ^ 63 ->
  let n := Z.of_nat (length (Clusters sr)) in
  let v := positional (fanOut (options sr)) ds in
  (v < n -> exists c, Clusters sr !! Z.to_nat v = Some c
                      /\ selectClusterNodes sr (numeral ds) = Returns (c, false))
  /\ (n < v <= 2 * n ->
      exists c, Clusters sr !! Z.to_nat (v - n - 1) = Some c
                /\ selectClusterNodes sr (numeral ds) = Returns (c, false))
  /\ (v = n \/ 2 * n < v ->
      selectClusterNodes sr (numeral ds)
      = Panics (IndexOutOfRange (v - n - 1) (length (Clusters sr)))).
Proof.
  intros Hds Hlen Hfan Hpow Hfit n v.
  pose proof (positional_nonneg (fanOut (options sr)) ds Hfan) as Hv. fold v in Hv.
  assert (Hsel : selectClusterNodes sr (numeral ds)
                 = (if n - 1 <? v
                    then c <<- index (Clusters sr) (v - n - 1) ;; Returns (c, false)
                    else c <<- index (Clusters sr) v ;; Returns (c, false))).
  { unfold selectClusterNodes. cbv zeta. rewrite numeral_length by exact Hds.
    destruct (Nat.eqb_spec (length ds) 1); [contradiction|].
    rewrite runes_numeral by (first [exact Hds|lia]).
    rewrite branchIndex_numeral; [reflexivity|exact Hfan|exact Hds| |lia|exact Hfit].
    intros k Hk.
    destruct (Z.eq_dec (fanOut (options sr)) 0) as [Hzero|Hpos].
    - rewrite Hzero. destruct (Z.eq_dec k 0) as [->|Hk0]; [simpl; lia|].
      rewrite Z.pow_0_l by lia. lia.
    - apply Z.le_lt_trans with (fanOut (options sr) ^ (Z.of_nat (length ds) - 1));
        [|exact Hpow].
      apply Z.pow_le_mono_r; lia. }
  rewrite Hsel. repeat split.
  - intros Hlt. destruct (Z.ltb_spec (n - 1) v); [lia|].
    destruct (index_in_range (Clusters sr) v ltac:(lia)) as (c & Hc & Hl).
    exists c. rewrite Hc. split; [exact Hl|reflexivity].
  - intros Hmid. destruct (Z.ltb_spec (n - 1) v); [|lia].
    destruct (index_in_range (Clusters sr) (v - n - 1) ltac:(lia)) as (c & Hc & Hl).
    exists c. rewrite Hc. split; [exact Hl|reflexivity].
  - intros Hout. destruct (Z.ltb_spec (n - 1) v); [|lia].
    rewrite index_out_of_range by (subst n; lia). reflexivity.
Qed.
End Numeral.

Lemma selectClusterNodes_numeral_witness :
  (exists c, Clusters sixSkeleton !! 2%nat = Some c
             /\ selectClusterNodes (fm := exactMath) sixSkeleton (numeral [0; 2]%nat)
                = Returns (c, false))
  /\ selectClusterNodes (fm := exactMath) sixSkeleton (numeral [1; 0]%nat)
     = Panics (IndexOutOfRange (-1) 3).
Proof.
  split.
  - refine (proj1 (selectClusterNodes_numeral (fm := exactMath) sixSkeleton [0; 2]%nat
                     _ _ _ _ _) _).
    + repeat constructor.
    + simpl. lia.
    + simpl. lia.
    + vm_compute. reflexivity.
    + vm_compute. reflexivity.
    + vm_compute. reflexivity.
  - refine (proj2 (proj2 (selectClusterNodes_numeral (fm := exactMath) sixSkeleton
                            [1; 0]%nat _ _ _ _ _)) _).
    + repeat constructor.
    + simpl. lia.
    + simpl. lia.
    + vm_compute. reflexivity.
    + vm_compute. reflexivity.
    + left. vm_compute. reflexivity.
Defined.

(** ** [SetNodes] in an arbitrary state *)

Lemma roomSum_app (size : Z) (a b : list (list string)) :
  roomSum size (a ++ b) = (roomSum size a + roomSum size b)%nat.
Proof. induction a as [|c a IH]; simpl; [reflexivity|]. rewrite IH. lia. Qed.

Lemma roomSum_replicate (size : Z) (k : nat) :
  1 <= size -> roomSum size (replicate k []) = (k * Z.to_nat size)%nat.
Proof.
  intros Hsize. induction k as [|k IH]; simpl; [reflexivity|].
  rewrite IH. unfold room. simpl. lia.
Qed.

(** The filling loop returns whenever the clusters from its index on have
    room for the nodes; it keeps the number of clusters and only extends
    clusters at their end. *)
Lemma fillClusters_total (size : Z) (l : list string) :
  forall pre suf : list (list string),
    (length l <= roomSum size suf)%nat ->
    exists r,
      fillClusters size (pre ++ suf) (length pre) l = Returns r
      /\ length r = length (pre ++ suf)
      /\ forall i c, (pre ++ suf) !! i = Some c ->
                     exists c', r !! i = Some c' /\ c `prefix_of` c'.
Proof.
  induction l as [|node rest IH]; intros pre suf Hroom.
  - exists (pre ++ suf). split; [reflexivity|]. split; [reflexivity|].
    intros i c Hc. exists c. split; [exact Hc|reflexivity].
  - destruct suf as [|c suf]; [simpl in Hroom; lia|].
    cbn [fillClusters].
    rewrite (index_lookup _ _ c) by (apply list_lookup_middle; reflexivity).
    cbn [obind].
    assert (Hins : <[length pre := c ++ [node]]> (pre ++ c :: suf)
                   = pre ++ (c ++ [node]) :: suf).
    { rewrite insert_app_r_alt by lia. now rewrite Nat.sub_diag. }
    rewrite Hins.
    assert (Hold : forall i c0, (pre ++ c :: suf) !! i = Some c0 ->
                   exists c1, (pre ++ (c ++ [node]) :: suf) !! i = Some c1
                              /\ c0 `prefix_of` c1).
    { intros i c0 Hc0. rewrite <- Hins.
      destruct (decide (i = length pre)) as [->|Hne].
      - rewrite list_lookup_middle in Hc0 by reflexivity. injection Hc0 as <-.
        exists (c ++ [node]). split; [|now apply prefix_app_r].
        apply list_lookup_insert_eq. rewrite length_app. simpl. lia.
      - exists c0. split; [|reflexivity].
        rewrite list_lookup_insert_ne by congruence. exact Hc0. }
    simpl in Hroom. unfold room in Hroom.
    rewrite length_app in *. cbn [length] in *.
    destruct (Z.leb_spec size (Z.of_nat (length c + 1))) as [Hfull|Hmore].
    + replace (pre ++ (c ++ [node]) :: suf) with ((pre ++ [c ++ [node]]) ++ suf)
        by (now rewrite <- app_assoc).
      replace (S (length pre)) with (length (pre ++ [c ++ [node]]))
        by (rewrite length_app; simpl; lia).
      destruct (IH (pre ++ [c ++ [node]]) suf) as (r & Hr & Hlen & Hpre); [lia|].
      exists r. split; [exact Hr|]. split.
      * rewrite Hlen, !length_app. simpl. lia.
      * intros i c0 Hc0. destruct (Hold i c0 Hc0) as (c1 & Hc1 & Hp01).
        rewrite <- app_assoc in Hpre. destruct (Hpre i c1 Hc1) as (c2 & Hc2 & Hp12).
        exists c2. split; [exact Hc2|]. now transitivity c1.
    + destruct (IH pre ((c ++ [node]) :: suf)) as (r & Hr & Hlen & Hpre).
      { simpl. unfold room. rewrite length_app. simpl. lia. }
      exists r. split; [exact Hr|]. split.
      * rewrite Hlen, !length_app. simpl. lia.
      * intros i c0 Hc0. destruct (Hold i c0 Hc0) as (c1 & Hc1 & Hp01).
        destruct (Hpre i c1 Hc1) as (c2 & Hc2 & Hp12).
        exists c2. split; [exact Hc2|]. now transitivity c1.
Qed.

(** The spreading loop returns whenever its receivers exist; it keeps the
    number of clusters and only extends clusters at their end. *)
Lemma spreadCluster_total (k : nat) (lastCluster : list string) :
  forall (clusters : list (list string)) (idx : nat),
    (idx < k)%nat -> (k <= length clusters)%nat ->
    exists r,
      spreadCluster k clusters idx lastCluster = Returns r
      /\ length r = length clusters
      /\ forall i c, clusters !! i = Some c ->
                     exists c', r !! i = Some c' /\ c `prefix_of` c'.
Proof.
  induction lastCluster as [|node rest IH]; intros clusters idx Hidx Hk.
  - exists clusters. split; [reflexivity|]. split; [reflexivity|].
    intros i c Hc. exists c. split; [exact Hc|reflexivity].
  - cbn [spreadCluster].
    destruct (lookup_lt_is_Some_2 clusters idx ltac:(lia)) as [c Hc].
    rewrite (index_lookup _ _ c Hc). cbn [obind].
    destruct (IH (<[idx := c ++ [node]]> clusters) ((idx + 1) mod k)%nat)
      as (r & Hr & Hlen & Hpre).
    { apply Nat.mod_upper_bound. lia. }
    { rewrite length_insert. exact Hk. }
    exists r. split; [exact Hr|]. split; [now rewrite Hlen, length_insert|].
    intros i c0 Hc0. destruct (decide (i = idx)) as [->|Hne].
    + rewrite Hc in Hc0. injection Hc0 as <-.
      destruct (Hpre idx (c ++ [node])) as (c2 & Hc2 & Hp).
      { apply list_lookup_insert_eq. eapply lookup_lt_Some; exact Hc. }
      exists c2. split; [exact Hc2|]. transitivity (c ++ [node]); [|exact Hp].
      now apply prefix_app_r.
    + apply Hpre. rewrite list_lookup_insert_ne by congruence. exact Hc0.
Qed.

Section AnyState.
Context {conv : FloatToInt} {fm : FloatMath}.

Lemma mergeLastCluster_total (minSize : Z) (clusters : list (list string))
    (k old : nat) :
  (old + k <= length clusters)%nat ->
  exists r amount,
    mergeLastCluster minSize clusters (Z.of_nat k) = Returns (r, amount)
    /\ (old <= length r)%nat
    /\ forall i c, (i < old)%nat -> clusters !! i = Some c ->
                   exists c', r !! i = Some c' /\ c `prefix_of` c'.
Proof.
  intros Hlen. unfold mergeLastCluster.
  destruct (Z.ltb_spec 1 (Z.of_nat k)) as [Hk|Hk].
  2:{ exists clusters, (Z.of_nat k). split; [reflexivity|]. split; [lia|].
      intros i c _ Hc. exists c. split; [exact Hc|reflexivity]. }
  destruct (index_in_range clusters (Z.of_nat (length clusters) - 1) ltac:(lia))
    as (lastCluster & -> & _).
  cbn [obind].
  destruct (Z.of_nat (length lastCluster) <? minSize).
  2:{ exists clusters, (Z.of_nat k). split; [reflexivity|]. split; [lia|].
      intros i c _ Hc. exists c. split; [exact Hc|reflexivity]. }
  destruct (spreadCluster_total (Z.to_nat (Z.of_nat k - 1)) lastCluster
              (take (length clusters - 1) clusters) 0)
    as (r & -> & Hr & Hpre).
  { lia. }
  { rewrite length_take. lia. }
  cbn [obind]. exists r, (Z.of_nat k - 1). split; [reflexivity|].
  rewrite length_take in Hr. split; [lia|].
  intros i c Hi Hc. apply Hpre. rewrite lookup_take_lt by lia. exact Hc.
Qed.

(** In any state, with a cluster size of at least 1, [generateCluster]
    returns; the options are kept, the registry gains the distinct names of
    the input at its end, and every cluster that was in the table is still
    at its index, extended at its end at most. *)
Lemma generateCluster_total (sr : SkeletonRendezvous) (nodes : list string) :
  1 <= clusterSize (options sr) ->
  exists sr',
    generateCluster sr nodes = Returns sr'
    /\ options sr' = options sr
    /\ Nodes sr' = Nodes sr ++ uniqueNodes ∅ nodes []
    /\ (length (Clusters sr) <= length (Clusters sr'))%nat
    /\ forall i c, Clusters sr !! i = Some c ->
                   exists c', Clusters sr' !! i = Some c' /\ c `prefix_of` c'.
Proof.
  intros Hsize. unfold generateCluster. cbv zeta.
  rewrite clusterAmountOf_ceilDiv by exact Hsize.
  set (sz := Z.to_nat (clusterSize (options sr))).
  set (k := ceilDiv (length nodes) sz). rewrite Nat2Z.id.
  destruct (fillClusters_total (clusterSize (options sr)) (uniqueNodes ∅ nodes [])
              [] (Clusters sr ++ replicate k []))
    as (r1 & Hr1 & Hlen1 & Hpre1).
  { rewrite roomSum_app, roomSum_replicate by exact Hsize. fold sz.
    pose proof (uniqueNodes_length nodes ∅ []) as Hu. simpl in Hu.
    pose proof (ceilDiv_capacity (length nodes) sz ltac:(subst sz; lia)) as Hcap.
    fold k in Hcap. lia. }
  cbn [app length] in Hr1, Hlen1, Hpre1. rewrite Hr1. cbn [obind].
  rewrite length_app, length_replicate in Hlen1.
  destruct (mergeLastCluster_total (minClusterSize (options sr)) r1 k
              (length (Clusters sr)) ltac:(lia))
    as (r2 & amount & -> & Hlen2 & Hpre2).
  cbn [obind fst snd]. eexists. split; [reflexivity|].
  cbn [options Nodes Clusters]. repeat split; [exact Hlen2|].
  intros i c Hc.
  destruct (Hpre1 i c) as (c1 & Hc1 & Hp1).
  { rewrite lookup_app_l by (eapply lookup_lt_Some; exact Hc). exact Hc. }
  destruct (Hpre2 i c1) as (c2 & Hc2 & Hp2); [eapply lookup_lt_Some; exact Hc|exact Hc1|].
  exists c2. split; [exact Hc2|]. now transitivity c1.
Qed.

(** [SetNodes] returns in every state when the cluster size is at least 1,
    and it only adds to the table: every cluster is still at its index and
    has at most gained nodes at its end. *)
Theorem SetNodes_returns_and_keeps_clusters (sr : SkeletonRendezvous)
    (nodes : list string) :
  1 <= clusterSize (options sr) ->
  exists sr',
    SetNodes sr nodes = Returns sr'
    /\ (length (Clusters sr) <= length (Clusters sr'))%nat
    /\ forall i c, Clusters sr !! i = Some c ->
                   exists c', Clusters sr' !! i = Some c' /\ c `prefix_of` c'.
Proof.
  intros Hsize.
  destruct (generateCluster_total sr nodes Hsize) as (sr' & Hgen & _ & _ & Hlen & Hpre).
  exists sr'. split; [exact Hgen|]. split; [exact Hlen|exact Hpre].
Qed.

Lemma generateCluster_frame (sr sr' : SkeletonRendezvous) (nodes : list string) :
  generateCluster sr nodes = Returns sr' ->
  options sr' = options sr /\ Nodes sr' = Nodes sr ++ uniqueNodes ∅ nodes [].
Proof.
  unfold generateCluster. cbv zeta.
  destruct (fillClusters _ _ _ _) as [clusters|]; [|discriminate].
  cbn [obind]. destruct (mergeLastCluster _ _ _) as [merged|]; [|discriminate].
  cbn [obind]. intros [= <-]. split; reflexivity.
Qed.

(** Neither operation changes the options, and neither ever takes a name
    out of the registry or reorders it: the registry before the call is a
    prefix of the registry after it. *)
Theorem registry_only_grows (sr sr' : SkeletonRendezvous) (nodes : list string) :
  SetNodes sr nodes = Returns sr' \/ RemoveNodes sr nodes = Returns sr' ->
  options sr' = options sr /\ Nodes sr `prefix_of` Nodes sr'.
Proof.
  intros [Hset|Hrem].
  - apply generateCluster_frame in Hset as [Hopt Hreg].
    split; [exact Hopt|]. rewrite Hreg. now apply prefix_app_r.
  - apply generateCluster_frame in Hrem as [Hopt Hreg].
    split; [exact Hopt|]. rewrite Hreg. cbn [Nodes]. now apply prefix_app_r.
Qed.
End AnyState.

Lemma SetNodes_returns_and_keeps_clusters_witness :
  exists sr',
    SetNodes (conv := amd64) (fm := exactMath) sixSkeleton ["n7"; "n8"; "n9"] = Returns sr'
    /\ (length (Clusters sixSkeleton) <= length (Clusters sr'))%nat
    /\ forall i c, Clusters sixSkeleton !! i = Some c ->
                   exists c', Clusters sr' !! i = Some c' /\ c `prefix_of` c'.
Proof.
  apply (SetNodes_returns_and_keeps_clusters (conv := amd64) (fm := exactMath) sixSkeleton ["n7"; "n8"; "n9"]).
  simpl. lia.
Defined.

Lemma registry_only_grows_witness :
  options sixMinusLast = options sixSkeleton
  /\ Nodes sixSkeleton `prefix_of` Nodes sixMinusLast.
Proof.
  apply (registry_only_grows (conv := amd64) (fm := exactMath) sixSkeleton sixMinusLast ["n5"; "n6"]).
  right. reflexivity.
Defined.

(** ** When every node fits into one cluster *)

Lemma ceilDiv_one (n sz : nat) : (1 <= n <= sz)%nat -> ceilDiv n sz = 1%nat.
Proof.
  intros Hn. unfold ceilDiv. symmetry.
  apply (Nat.div_unique _ _ _ (n - 1)); lia.
Qed.

Section OneCluster.
Context {conv : FloatToInt} {fm : FloatMath}.

Lemma FindNode_empty_table (sr : SkeletonRendezvous) (key : string) :
  Clusters sr = [] -> VirtualNodes sr <= 0 ->
  FindNode sr key = Panics (IndexOutOfRange (-1) 0).
Proof.
  intros Hempty Hdepth. unfold FindNode, branchOf.
  replace (Z.to_nat (VirtualNodes sr)) with 0%nat by lia.
  unfold selectClusterNodes. rewrite Hempty. reflexivity.
Qed.

Lemma countVirtualNodes_one (fanOut : Z) : 2 <= fanOut -> countVirtualNodes 1 fanOut = 0.
Proof.
  intros Hf. unfold countVirtualNodes.
  destruct (Z.ltb_spec fanOut 0); [lia|].
  destruct (Z.eqb_spec fanOut 0); [lia|].
  destruct (Z.eqb_spec fanOut 1); [lia|]. reflexivity.
Qed.

(** A rebuild from an empty table with at most a cluster's worth of
    distinct nodes makes one cluster of them and a tree of depth 0. *)
Lemma generateCluster_one_cluster (sr : SkeletonRendezvous) (nodes : list string) :
  Clusters sr = [] -> NoDup nodes -> nodes <> [] ->
  Z.of_nat (length nodes) <= clusterSize (options sr) ->
  2 <= fanOut (options sr) ->
  generateCluster sr nodes
  = Returns {| options := options sr; Clusters := [nodes];
               Nodes := Nodes sr ++ nodes; VirtualNodes := 0 |}.
Proof.
  intros Hempty Hnd Hne Hfit Hfan.
  assert (Hlen : (1 <= length nodes)%nat) by (destruct nodes; [contradiction|simpl; lia]).
  rewrite generateCluster_rebuild by (first [exact Hempty|lia]). cbv zeta.
  rewrite (uniqueNodes_NoDup nodes ∅ [] Hnd) by (intros x _; apply not_elem_of_empty).
  cbn [app]. rewrite ceilDiv_one by lia. cbn [chunks].
  rewrite take_ge by lia. cbn [mergeUndersized length Nat.ltb Nat.leb andb].
  now rewrite countVirtualNodes_one.
Qed.

(** With at most a cluster's worth of distinct nodes on a new instance the
    skeleton is plain rendezvous hashing: one cluster, depth 0, and
    [FindNode] is the highest-random-weight choice among all the nodes. *)
Theorem SetNodes_one_cluster (sr : SkeletonRendezvous) (nodes : list string) :
  Clusters sr = [] -> NoDup nodes -> nodes <> [] ->
  Z.of_nat (length nodes) <= clusterSize (options sr) ->
  2 <= fanOut (options sr) ->
  exists sr',
    SetNodes sr nodes = Returns sr'
    /\ Clusters sr' = [nodes]
    /\ VirtualNodes sr' = 0
    /\ forall key, FindNode sr' key = Returns (findHighestRandomWeight sr key nodes).
Proof.
  intros Hempty Hnd Hne Hfit Hfan. unfold SetNodes.
  rewrite generateCluster_one_cluster by assumption.
  eexists. split; [reflexivity|]. cbn [Clusters VirtualNodes].
  split; [reflexivity|]. split; [reflexivity|]. intros key.
  rewrite (FindNode_depth_zero _ key nodes [])
    by (first [reflexivity | cbn [VirtualNodes]; lia]).
  reflexivity.
Qed.

(** In that regime a removal that spares a key's node leaves the key where
    it was: the guarantee of rendezvous hashing. *)
Theorem one_cluster_minimal_disruption (sr : SkeletonRendezvous)
    (nodes removed : list string) (key : string) :
  Clusters sr = [] -> Nodes sr = [] -> NoDup nodes ->
  Z.of_nat (length nodes) <= clusterSize (options sr) ->
  2 <= fanOut (options sr) ->
  Exists (fun n => 0 < hash sr n key) nodes ->
  findHighestRandomWeight sr key nodes ∉ removed ->
  exists sr1 sr2,
    SetNodes sr nodes = Returns sr1
    /\ RemoveNodes sr1 removed = Returns sr2
    /\ FindNode sr1 key = Returns (findHighestRandomWeight sr key nodes)
    /\ FindNode sr2 key = Returns (findHighestRandomWeight sr key nodes).
Proof.
  intros Hempty Hreg Hnd Hfit Hfan Hex Hwin.
  assert (Hne : nodes <> []) by (intros ->; inversion Hex).
  destruct (hrw_filter_stable sr key nodes removed Hex Hwin) as [Hin Hstable].
  unfold SetNodes. rewrite generateCluster_one_cluster by assumption.
  eexists. eexists. split; [reflexivity|].
  unfold RemoveNodes. cbv zeta. cbn [options Nodes Clusters VirtualNodes].
  rewrite Hreg. cbn [app].
  set (kept := filter (fun node => node ∉ removed) nodes).
  assert (Hkept : filter (fun node => node ∉ (list_to_set removed : gset string)) nodes
                  = kept).
  { apply list_filter_iff. intros x. now rewrite elem_of_list_to_set. }
  rewrite Hkept.
  assert (Hkin : findHighestRandomWeight sr key nodes ∈ kept)
    by (apply list_elem_of_filter; split; assumption).
  pose proof (length_filter (fun node => node ∉ removed) nodes) as Hklen. fold kept in Hklen.
  rewrite generateCluster_one_cluster; cbn [options Clusters];
    [|reflexivity|now apply NoDup_filter|intros Hk; rewrite Hk in Hkin; now apply elem_of_nil in Hkin|lia|exact Hfan].
  split; [reflexivity|]. split.
  - rewrite (FindNode_depth_zero _ key nodes [])
      by (first [reflexivity | cbn [VirtualNodes]; lia]).
    reflexivity.
  - rewrite (FindNode_depth_zero _ key kept [])
      by (first [reflexivity | cbn [VirtualNodes]; lia]).
    rewrite <- Hstable. reflexivity.
Qed.

(** ** Empty input, and removing everything *)

Lemma generateCluster_nil (sr : SkeletonRendezvous) :
  clusterSize (options sr) <> 0 ->
  generateCluster sr []
  = Returns {| options := options sr; Clusters := Clusters sr; Nodes := Nodes sr;
               VirtualNodes := countVirtualNodes 0 (fanOut (options sr)) |}.
Proof.
  intros Hsize. unfold generateCluster, clusterAmountOf. cbv zeta.
  destruct (Z.eqb_spec (clusterSize (options sr)) 0); [contradiction|].
  cbn [length uniqueNodes]. change (- Z.of_nat 0) with 0. rewrite Z.div_0_l by exact Hsize.
  cbn [Z.opp Z.to_nat replicate fillClusters]. rewrite !app_nil_r. reflexivity.
Qed.

Lemma countVirtualNodes_zero (fanOut : Z) :
  1 <= fanOut -> countVirtualNodes 0 fanOut = int_of_negInf.
Proof.
  intros Hf. unfold countVirtualNodes.
  destruct (Z.ltb_spec fanOut 0); [lia|].
  destruct (Z.eqb_spec fanOut 0); [lia|]. reflexivity.
Qed.

(** [SetNodes] of the empty list leaves table and registry alone but
    overwrites the depth with [int(-Inf)]; where that value is not positive
    every key is from then on resolved inside cluster 0. *)
Theorem SetNodes_nil_resets_depth (sr : SkeletonRendezvous) :
  clusterSize (options sr) <> 0 ->
  1 <= fanOut (options sr) ->
  exists sr',
    SetNodes sr [] = Returns sr'
    /\ Clusters sr' = Clusters sr
    /\ Nodes sr' = Nodes sr
    /\ VirtualNodes sr' = int_of_negInf
    /\ (int_of_negInf <= 0 ->
        forall key c cs, Clusters sr = c :: cs ->
                         FindNode sr' key = Returns (findHighestRandomWeight sr key c)).
Proof.
  intros Hsize Hfan. unfold SetNodes. rewrite generateCluster_nil by exact Hsize.
  rewrite countVirtualNodes_zero by exact Hfan.
  eexists. split; [reflexivity|]. cbn [Clusters Nodes VirtualNodes].
  repeat split. intros Hneg key c cs Hcl.
  rewrite (FindNode_depth_zero _ key c cs)
    by (first [exact Hcl | cbn [VirtualNodes]; exact Hneg]).
  reflexivity.
Qed.

(** Removing every registered name empties the table (the registry keeps
    the names); where [int(-Inf)] is not positive, [FindNode] then panics
    for every key. *)
Theorem RemoveNodes_everything (sr : SkeletonRendezvous) (removed : list string) :
  clusterSize (options sr) <> 0 ->
  1 <= fanOut (options sr) ->
  (forall node, node ∈ Nodes sr -> node ∈ removed) ->
  exists sr',
    RemoveNodes sr removed = Returns sr'
    /\ Clusters sr' = []
    /\ Nodes sr' = Nodes sr
    /\ (int_of_negInf <= 0 ->
        forall key, FindNode sr' key = Panics (IndexOutOfRange (-1) 0)).
Proof.
  intros Hsize Hfan Hall. unfold RemoveNodes. cbv zeta.
  assert (Hnone : filter (fun node => node ∉ (list_to_set removed : gset string)) (Nodes sr)
                  = []).
  { induction (Nodes sr) as [|x l IH]; [reflexivity|].
    rewrite filter_cons_False.
    - apply IH. intros node Hn. apply Hall. now right.
    - intros Hx. apply Hx. apply elem_of_list_to_set. apply Hall. left. }
  rewrite Hnone, generateCluster_nil by exact Hsize.
  cbn [options Clusters Nodes]. rewrite countVirtualNodes_zero by exact Hfan.
  eexists. split; [reflexivity|]. cbn [Clusters Nodes]. repeat split.
  intros Hneg key. apply FindNode_empty_table; [reflexivity|exact Hneg].
Qed.
End OneCluster.

Lemma SetNodes_one_cluster_witness :
  exists sr',
    SetNodes (conv := amd64) (fm := exactMath) roomySkeleton fourNodes = Returns sr'
    /\ Clusters sr' = [fourNodes]
    /\ VirtualNodes sr' = 0
    /\ forall key,
         FindNode (fm := exactMath) sr' key
         = Returns (findHighestRandomWeight roomySkeleton key fourNodes).
Proof.
  apply (SetNodes_one_cluster (conv := amd64) (fm := exactMath) roomySkeleton fourNodes).
  - reflexivity.
  - apply (bool_decide_unpack _). vm_compute. exact I.
  - discriminate.
  - simpl. lia.
  - simpl. lia.
Defined.

Lemma SetNodes_nil_resets_depth_witness :
  exists sr',
    SetNodes (conv := amd64) (fm := exactMath) sixSkeleton [] = Returns sr'
    /\ Clusters sr' = Clusters sixSkeleton
    /\ Nodes sr' = Nodes sixSkeleton
    /\ VirtualNodes sr' = @int_of_negInf amd64
    /\ (@int_of_negInf amd64 <= 0 ->
        forall key c cs, Clusters sixSkeleton = c :: cs ->
                         FindNode (fm := exactMath) sr' key = Returns (findHighestRandomWeight sixSkeleton key c)).
Proof.
  apply (SetNodes_nil_resets_depth (conv := amd64) (fm := exactMath) sixSkeleton).
  - simpl. lia.
  - simpl. lia.
Defined.

Lemma RemoveNodes_everything_witness :
  exists sr',
    RemoveNodes (conv := amd64) (fm := exactMath) sixSkeleton sixNodes = Returns sr'
    /\ Clusters sr' = []
    /\ Nodes sr' = Nodes sixSkeleton
    /\ (@int_of_negInf amd64 <= 0 ->
        forall key, FindNode (fm := exactMath) sr' key = Panics (IndexOutOfRange (-1) 0)).
Proof.
  apply (RemoveNodes_everything (conv := amd64) (fm := exactMath) sixSkeleton sixNodes).
  - simpl. lia.
  - simpl. lia.
  - intros node Hnode. exact Hnode.
Defined.

Lemma one_cluster_minimal_disruption_witness :
  exists sr1 sr2,
    SetNodes (conv := amd64) (fm := exactMath) roomySkeleton fourNodes = Returns sr1
    /\ RemoveNodes (conv := amd64) (fm := exactMath) sr1 ["jg1"; "jg4"] = Returns sr2
    /\ FindNode (fm := exactMath) sr1 "apple"
       = Returns (findHighestRandomWeight roomySkeleton "apple" fourNodes)
    /\ FindNode (fm := exactMath) sr2 "apple"
       = Returns (findHighestRandomWeight roomySkeleton "apple" fourNodes).
Proof.
  apply (one_cluster_minimal_disruption (conv := amd64) (fm := exactMath)
           roomySkeleton fourNodes ["jg1"; "jg4"] "apple").
  - reflexivity.
  - reflexivity.
  - apply (bool_decide_unpack _). vm_compute. exact I.
  - simpl. lia.
  - simpl. lia.
  - apply Exists_cons_hd. vm_compute. reflexivity.
  - replace (findHighestRandomWeight roomySkeleton "apple" fourNodes)
      with "jg2" by (vm_compute; reflexivity).
    intros Hin. repeat (apply elem_of_cons in Hin as [Hin|Hin]; [discriminate Hin|]).
    now apply elem_of_nil in Hin.
Defined.

(** ** The depth of the tree *)

Section Depth.
Context {conv : FloatToInt} {fm : FloatMath}.

(** For at least one cluster, fewer than 2^31 of them, and a fan-out of at
    least 2: the depth grows with the number of clusters, gives the tree a
    leaf for every cluster, exceeds the binary logarithm of the number of
    clusters, rounded up, by at most one, and is 0 exactly for a single
    cluster; it is the least depth with a leaf for every cluster, or one
    more than the least when the number of clusters is an exact power
    [f ^ k] with [k >= 2]. *)
Theorem countVirtualNodes_bounds (c c' f : Z) :
  1 <= c <= c' -> c' < 2 ^ 31 -> 2 <= f ->
  0 <= countVirtualNodes c f <= countVirtualNodes c' f
  /\ c' <= f ^ countVirtualNodes c' f
  /\ countVirtualNodes c' f <= Z.log2_up c' + 1
  /\ (countVirtualNodes c f = 0 <-> c = 1)
  /\ ((forall d, 0 <= d < countVirtualNodes c' f -> f ^ d < c')
      \/ (3 <= countVirtualNodes c' f /\ c' = f ^ (countVirtualNodes c' f - 1))).
Proof.
  intros Hc Hbound Hf.
  destruct (countVirtualNodes_range c f ltac:(lia) Hf) as (Hnn & Hup & Hleast).
  destruct (countVirtualNodes_range c' f ltac:(lia) Hf) as (Hnn' & Hup' & Hleast').
  cbv zeta in *.
  assert (Hmono : forall a b, 0 <= a < b -> f ^ a < f ^ b)
    by (intros a b Hab; apply Z.pow_lt_mono_r; lia).
  split; [split; [exact Hnn|]|].
  { destruct (Z.eq_dec c c') as [->|Hne]; [lia|].
    destruct (Z.le_gt_cases (countVirtualNodes c f) (countVirtualNodes c' f)) as [|Hgt];
      [assumption|exfalso].
    destruct Hleast as [Hleast|[Hthree Hpow]].
    - specialize (Hleast (countVirtualNodes c' f) (conj Hnn' Hgt)). lia.
    - destruct (Z.eq_dec (countVirtualNodes c' f) (countVirtualNodes c f - 1)) as [Heq|Hlt].
      + rewrite Heq in Hup'. lia.
      + assert (Hab : 0 <= countVirtualNodes c' f < countVirtualNodes c f - 1) by lia.
        specialize (Hmono _ _ Hab). lia. }
  split; [exact Hup'|]. split; [|split; [|exact Hleast']].
  - pose proof (Z.log2_up_nonneg c') as HL.
    assert (Hlog : c' <= f ^ Z.log2_up c').
    { assert (2 ^ Z.log2_up c' <= f ^ Z.log2_up c') by (apply Z.pow_le_mono_l; lia).
      destruct (Z.eq_dec c' 1) as [->|Hne]; [rewrite Z.log2_up_1; simpl; lia|].
      pose proof (Z.log2_up_spec c' ltac:(lia)) as [_ Hspec]. lia. }
    destruct (Z.le_gt_cases (countVirtualNodes c' f) (Z.log2_up c' + 1)) as [|Hgt];
      [assumption|exfalso].
    destruct Hleast' as [Hleast'|[Hthree Hpow]].
    + assert (Hab : 0 <= Z.log2_up c' < countVirtualNodes c' f) by lia.
      specialize (Hleast' _ Hab). lia.
    + assert (Hab : 0 <= Z.log2_up c' < countVirtualNodes c' f - 1) by lia.
      specialize (Hmono _ _ Hab). lia.
  - split.
    + intros Hzero. rewrite Hzero in Hup. simpl in Hup. lia.
    + intros ->. destruct Hleast as [Hleast|[Hthree Hpow]].
      * destruct (Z.le_gt_cases (countVirtualNodes 1 f) 0) as [|Hgt]; [lia|].
        assert (Hab : 0 <= 0 < countVirtualNodes 1 f) by lia.
        specialize (Hleast _ Hab). simpl in Hleast. lia.
      * assert (Hab : 0 <= 0 < countVirtualNodes 1 f - 1) by lia.
        specialize (Hmono _ _ Hab). simpl in Hmono. lia.
Qed.
End Depth.

Lemma countVirtualNodes_bounds_witness :
  0 <= countVirtualNodes (conv := amd64) (fm := exactMath) 2 3
    <= countVirtualNodes (conv := amd64) (fm := exactMath) 4 3
  /\ 4 <= 3 ^ countVirtualNodes (conv := amd64) (fm := exactMath) 4 3
  /\ countVirtualNodes (conv := amd64) (fm := exactMath) 4 3 <= Z.log2_up 4 + 1
  /\ (countVirtualNodes (conv := amd64) (fm := exactMath) 2 3 = 0 <-> 2 = 1)
  /\ ((forall d, 0 <= d < countVirtualNodes (conv := amd64) (fm := exactMath) 4 3 -> 3 ^ d < 4)
      \/ (3 <= countVirtualNodes (conv := amd64) (fm := exactMath) 4 3
          /\ 4 = 3 ^ (countVirtualNodes (conv := amd64) (fm := exactMath) 4 3 - 1))).
Proof.
  apply (countVirtualNodes_bounds (conv := amd64) (fm := exactMath) 2 4 3); lia.
Defined.

(** ** The minimum cluster size *)

Lemma chunks_min_length {A : Type} (sz m : nat) (k : nat) :
  (m <= sz)%nat ->
  forall l : list A,
    (1 <= k)%nat -> (m + (k - 1) * sz <= length l)%nat ->
    Forall (fun c => (m <= length c)%nat) (chunks k sz l).
Proof.
  intros Hm. induction k as [|k IH]; intros l Hk Hl; [lia|].
  cbn [chunks]. constructor.
  - rewrite length_take. simpl in Hl. lia.
  - destruct k as [|k]; [constructor|].
    apply IH; [lia|]. rewrite length_drop. simpl in *. lia.
Qed.

(** The reference partition of at least [minSize] elements, with
    [minSize] not above the chunk size, has no cluster below [minSize]. *)
Lemma partitionSpec_min_length {A : Type} (sz : nat) (minSize : Z) (l : list A) :
  (1 <= sz)%nat -> minSize <= Z.of_nat sz -> minSize <= Z.of_nat (length l) ->
  Forall (fun c => minSize <= Z.of_nat (length c)) (partitionSpec sz minSize l).
Proof.
  intros Hsz Hmin Hlen. unfold partitionSpec.
  set (k := ceilDiv (length l) sz).
  destruct (Nat.eq_dec (length l) 0%nat) as [Hzero|Hpos].
  { subst k. rewrite Hzero. unfold ceilDiv.
    rewrite Nat.div_small by lia. constructor. }
  destruct (ceilDiv_tight (length l) sz Hsz ltac:(lia)) as [Hk Htight]. fold k in Hk, Htight.
  assert (Hfull : Forall (fun c => (sz <= length c)%nat) (chunks (k - 1) sz l)).
  { destruct (Nat.eq_dec k 1%nat) as [Hk1|Hk1]; [rewrite Hk1; constructor|].
    apply chunks_min_length; [lia|lia|].
    replace (sz + (k - 1 - 1) * sz)%nat with ((k - 1) * sz)%nat by nia. lia. }
  unfold mergeUndersized. cbv zeta. rewrite length_chunks.
  destruct (last (chunks k sz l)) as [lastChunk|] eqn:Hlast.
  2:{ apply last_None in Hlast. pose proof (length_chunks k sz l) as Hl.
      rewrite Hlast in Hl. simpl in Hl. lia. }
  cbn [from_option id].
  assert (Hsplit : chunks k sz l = chunks (k - 1) sz l ++ [lastChunk]).
  { apply last_Some in Hlast as [cs' Hcs']. rewrite Hcs'. f_equal.
    rewrite <- (take_chunks (k - 1) k sz l) by lia. rewrite Hcs'.
    pose proof (length_chunks k sz l) as Hl. rewrite Hcs', length_app in Hl.
    simpl in Hl. rewrite take_app_length' by lia. reflexivity. }
  destruct (Nat.ltb_spec 1 k) as [Hk2|Hk2]; cbn [andb].
  - destruct (Z.ltb_spec (Z.of_nat (length lastChunk)) minSize) as [Hshort|Hok].
    + rewrite take_chunks by lia. apply Forall_forall. intros c Hc.
      apply list_elem_of_lookup in Hc as [i Hi].
      rewrite list_lookup_imap in Hi.
      destruct (chunks (k - 1) sz l !! i) as [c0|] eqn:Hc0; [|discriminate].
      injection Hi as <-. rewrite Forall_forall in Hfull.
      assert (sz <= length c0)%nat
        by (apply Hfull; apply list_elem_of_lookup; eauto).
      rewrite length_app. lia.
    + rewrite Hsplit. apply Forall_app. split.
      * eapply Forall_impl; [exact Hfull|]. intros c Hc. simpl in Hc. lia.
      * constructor; [exact Hok|constructor].
  - assert (k = 1%nat) by lia. subst k.
    assert (Hone : ceilDiv (length l) sz = 1%nat) by lia. rewrite Hone.
    cbn [chunks]. constructor; [|constructor].
    rewrite length_take. rewrite Hone in Htight. simpl in Htight.
    assert (length l <= sz)%nat.
    { pose proof (ceilDiv_capacity (length l) sz Hsz). rewrite Hone in *. lia. }
    lia.
Qed.

Section Minimum.
Context {conv : FloatToInt} {fm : FloatMath}.

(** [MinClusterSize] is kept by a rebuild: with a minimum not above the
    cluster size, a [SetNodes] on an empty table with at least that many
    distinct nodes, and a [RemoveNodes] that leaves at least that many
    names of a duplicate-free registry, build no cluster below the
    minimum. *)
Theorem rebuild_respects_minimum (sr : SkeletonRendezvous) (nodes : list string) :
  1 <= clusterSize (options sr) ->
  minClusterSize (options sr) <= clusterSize (options sr) ->
  (Clusters sr = [] -> NoDup nodes ->
   minClusterSize (options sr) <= Z.of_nat (length nodes) ->
   exists sr',
     SetNodes sr nodes = Returns sr'
     /\ Forall (fun c => minClusterSize (options sr) <= Z.of_nat (length c)) (Clusters sr'))
  /\ (NoDup (Nodes sr) ->
      minClusterSize (options sr)
      <= Z.of_nat (length (filter (fun node => node ∉ nodes) (Nodes sr))) ->
      exists sr',
        RemoveNodes sr nodes = Returns sr'
        /\ Forall (fun c => minClusterSize (options sr) <= Z.of_nat (length c)) (Clusters sr')).
Proof.
  intros Hsize Hmin. split.
  - intros Hempty Hnd Hlen. unfold SetNodes.
    rewrite generateCluster_rebuild by assumption. cbv zeta.
    rewrite (uniqueNodes_NoDup nodes ∅ [] Hnd) by (intros x _; apply not_elem_of_empty).
    cbn [app]. eexists. split; [reflexivity|]. cbn [Clusters].
    apply (partitionSpec_min_length (Z.to_nat (clusterSize (options sr)))); lia.
  - intros Hnd Hlen. unfold RemoveNodes. cbv zeta.
    set (kept := filter (fun node => node ∉ nodes) (Nodes sr)) in *.
    assert (Hkept : filter (fun node => node ∉ (list_to_set nodes : gset string)) (Nodes sr)
                    = kept).
    { apply list_filter_iff. intros x. now rewrite elem_of_list_to_set. }
    rewrite Hkept.
    rewrite generateCluster_rebuild by (cbn [Clusters options]; first [reflexivity|exact Hsize]).
    cbv zeta. cbn [options Clusters].
    rewrite (uniqueNodes_NoDup kept ∅ []) by (first [now apply NoDup_filter|intros x _; apply not_elem_of_empty]).
    cbn [app]. eexists. split; [reflexivity|]. cbn [Clusters].
    apply (partitionSpec_min_length (Z.to_nat (clusterSize (options sr)))); lia.
Qed.
End Minimum.

Lemma rebuild_respects_minimum_witness :
  (exists sr',
      SetNodes (conv := amd64) (fm := exactMath) testSkeleton fiveNodes = Returns sr'
      /\ Forall (fun c => minClusterSize (options testSkeleton) <= Z.of_nat (length c))
                (Clusters sr'))
  /\ (exists sr',
         RemoveNodes (conv := amd64) (fm := exactMath) sixSkeleton ["n6"] = Returns sr'
         /\ Forall (fun c => minClusterSize (options sixSkeleton) <= Z.of_nat (length c))
                   (Clusters sr')).
Proof.
  split.
  - apply (proj1 (rebuild_respects_minimum (conv := amd64) (fm := exactMath)
                    testSkeleton fiveNodes ltac:(simpl; lia) ltac:(simpl; lia))).
    + reflexivity.
    + apply (bool_decide_unpack _). vm_compute. exact I.
    + simpl. lia.
  - apply (proj2 (rebuild_respects_minimum (conv := amd64) (fm := exactMath)
                    sixSkeleton ["n6"] ltac:(simpl; lia) ltac:(simpl; lia))).
    + apply (bool_decide_unpack _). vm_compute. exact I.
    + apply Z.leb_le. vm_compute. reflexivity.
Defined.
